(** * transferir_colunas_a_mais: the [/transfer] route of [app.py]

    A shallow embedding of the data path of [transfer] (app.py, lines 24-105):
    two spreadsheets are read into pandas frames, one column of each is
    renamed to ['comum'] and cleaned, the first frame is restricted to the
    keys of the second, and both are combined by an outer [pd.merge].

    What is embedded and how:
    - a [DataFrame] is an ordered list of column labels and an ordered list
      of rows, each row a list of cells in column order; the row index of
      pandas plays no part in [transfer] and is left out; cells are values,
      the dtype of a column is not tracked;
    - the pandas calls of the route ([rename], [df[c]], [astype(str)],
      [.str.strip()], [.str.upper()], [dropna], [unique], [isin], boolean
      indexing, [.empty], [pd.merge(..., how='outer')]) are functions of the
      same names, with the behaviour of pandas 2.x;
    - an exception that leaves [transfer] is a [Raise]; a value returned by
      the route is a [response];
    - text is ASCII: [Py.strip] and [Py.upper] are [str.strip] and
      [str.upper] on texts whose code points are all below 128
      ([Py.isascii]); on other texts Python follows the Unicode tables, which
      are not reproduced, and every statement about the cleaned text itself
      is made for key cells that hold ASCII text, an integer or nothing
      ([plain_cell]);
    - Flask's request parsing, the spreadsheet reader and writer and the
      console prints are outside the embedding. *)

From Stdlib Require Import ZArith Ascii String DecimalString.
From stdpp Require Import base decidable option list sorting strings.

Local Open Scope string_scope.
Local Open Scope list_scope.

(** ** Python text: [str.strip] and [str.upper] on ASCII *)

Module Py.

(** [str.isspace] on one code point: TAB, LF, VT, FF, CR, the four
    separators FS GS RS US, and the blank. *)
Definition isspace (c : ascii) : bool :=
  let n := nat_of_ascii c in
  ((9 <=? n)%nat && (n <=? 13)%nat) || ((28 <=? n)%nat && (n <=? 32)%nat).

Definition islower (c : ascii) : bool :=
  let n := nat_of_ascii c in (97 <=? n)%nat && (n <=? 122)%nat.

Definition upper_char (c : ascii) : ascii :=
  if islower c then ascii_of_nat (nat_of_ascii c - 32) else c.

Fixpoint lstrip (s : string) : string :=
  match s with
  | EmptyString => EmptyString
  | String c s' => if isspace c then lstrip s' else s
  end.

Fixpoint rstrip (s : string) : string :=
  match s with
  | EmptyString => EmptyString
  | String c s' =>
      match rstrip s' with
      | EmptyString => if isspace c then EmptyString else String c EmptyString
      | t => String c t
      end
  end.

(** [s.strip()] *)
Definition strip (s : string) : string := rstrip (lstrip s).

(** [s.upper()] *)
Fixpoint upper (s : string) : string :=
  match s with
  | EmptyString => EmptyString
  | String c s' => String (upper_char c) (upper s')
  end.

(** [str(n)] for an [int] *)
Definition str_int (z : Z) : string := NilZero.string_of_int (Z.to_int z).

Definition first (s : string) : option ascii :=
  match s with
  | EmptyString => None
  | String c _ => Some c
  end.

Fixpoint last (s : string) : option ascii :=
  match s with
  | EmptyString => None
  | String c EmptyString => Some c
  | String _ s' => last s'
  end.

Definition blank_end (o : option ascii) : bool :=
  match o with
  | Some c => isspace c
  | None => false
  end.

(** A text has no ASCII blank at either end. *)
Definition trimmed (s : string) : Prop :=
  blank_end (first s) = false /\ blank_end (last s) = false.

(** A text holds no lower-case letter of ASCII. *)
Fixpoint uppercased (s : string) : Prop :=
  match s with
  | EmptyString => True
  | String c s' => islower c = false /\ uppercased s'
  end.

(** [str.isascii]: every code point is below 128. *)
Fixpoint isascii (s : string) : bool :=
  match s with
  | EmptyString => true
  | String c s' => (nat_of_ascii c <? 128)%nat && isascii s'
  end.

(** A text made of blanks only. *)
Fixpoint blank (s : string) : Prop :=
  match s with
  | EmptyString => True
  | String c s' => isspace c = true /\ blank s'
  end.

(** [t] is [s] without the blanks at its two ends. *)
Definition stripped (s t : string) : Prop :=
  exists pre post : string,
    s = pre +:+ t +:+ post /\ blank pre /\ blank post /\ trimmed t.

(** [u] is [t] with every lower-case letter replaced by its capital, which
    stands 32 code points below it; all other code points are kept. *)
Inductive capitalised : string -> string -> Prop :=
  | capitalised_nil : capitalised EmptyString EmptyString
  | capitalised_keep (c : ascii) (t u : string) :
      islower c = false -> capitalised t u ->
      capitalised (String c t) (String c u)
  | capitalised_letter (c d : ascii) (t u : string) :
      islower c = true -> nat_of_ascii d + 32 = nat_of_ascii c -> capitalised t u ->
      capitalised (String c t) (String d u).

End Py.

(** ** Cells, frames, exceptions *)

(** A cell as [pd.read_excel] delivers it: text, an integer, or nothing (NaN,
    here [CNull]). A float and a timestamp are formatted by [astype(str)]
    column by column, with routines of numpy and pandas that are not
    reproduced: such a cell comes with the text that [astype(str)] yields for
    it in its column, and no statement about the cleaned text is made for
    it. *)
Inductive Cell : Type :=
  | CStr (s : string)
  | CInt (z : Z)
  | CFloat (shown : string)
  | CDate (shown : string)
  | CNull.

Global Instance Cell_eq_dec : EqDecision Cell.
Proof. solve_decision. Defined.

Global Instance Cell_inhabited : Inhabited Cell := populate CNull.

(** A row of a frame and a column taken from it are lists of cells. *)
Abbreviation Row := (list Cell) (only parsing).
Abbreviation Series := (list Cell) (only parsing).

Record DataFrame : Type := mkDataFrame {
  columns : list string;
  rows : list Row
}.

Global Instance DataFrame_eq_dec : EqDecision DataFrame.
Proof. solve_decision. Defined.

(** Column labels are distinct (the reader renames repeated headers) and
    every row has one cell per column. *)
Definition wf (df : DataFrame) : Prop :=
  NoDup (columns df) /\ Forall (fun r : Row => length r = length (columns df)) (rows df).

Inductive exn : Type :=
  | KeyError (label : string)
  | AttributeError
  | ValueError
  | MergeError.

Inductive result (A : Type) : Type :=
  | Ok (a : A)
  | Raise (e : exn).
Arguments Ok {A} a.
Arguments Raise {A} e.

Global Instance result_bind : MBind result := fun A B k m =>
  match m with
  | Ok a => k a
  | Raise e => Raise e
  end.

(** The reserved label of line 48. *)
Definition comum : string := "comum".

(** ** The pandas calls of [transfer] *)

(** The text that [astype(str)] makes of a cell: the text itself, the
    decimal digits of an integer, ['nan'] for an empty cell of a text or
    number column; for a float or a timestamp, the text that comes with the
    cell. *)
Definition cell_str (c : Cell) : string :=
  match c with
  | CStr s => s
  | CInt z => Py.str_int z
  | CFloat shown => shown
  | CDate shown => shown
  | CNull => "nan"
  end.

Definition astype_str (s : Series) : Series := (fun c => CStr (cell_str c)) <$> s.

(** The [.str] methods yield NaN on a cell that is not text. *)
Definition str_strip (s : Series) : Series :=
  (fun c => match c with CStr t => CStr (Py.strip t) | _ => CNull end) <$> s.

Definition str_upper (s : Series) : Series :=
  (fun c => match c with CStr t => CStr (Py.upper t) | _ => CNull end) <$> s.

Definition isna (c : Cell) : bool :=
  match c with CNull => true | _ => false end.

Definition dropna (s : Series) : Series := filter (fun c => isna c = false) s.

(** [Series.unique()]: the distinct values, in order of first appearance. *)
Definition unique (s : Series) : Series := reverse (remove_dups (reverse s)).

Definition isin (s values : Series) : list bool :=
  (fun c => bool_decide (c ∈ values)) <$> s.

(** [df.rename(columns={old: new})]: labels other than [old] are kept, and a
    label that does not occur is ignored. *)
Definition rename (df : DataFrame) (old new : string) : DataFrame :=
  {| columns := (fun c => if decide (c = old) then new else c) <$> columns df;
     rows := rows df |}.

(** The positions at which a label occurs. *)
Definition positions (c : string) (cols : list string) : list nat :=
  filter (fun i => cols !! i = Some c) (seq 0 (length cols)).

(** The values of the column at position [i], top to bottom. *)
Definition series_at (i : nat) (df : DataFrame) : Series :=
  (fun r : Row => r !!! i) <$> rows df.

(** [df[c]] followed by a method that only a Series has ([.str] at lines
    56-57, [.unique] at line 67): an absent label raises KeyError, a repeated
    label selects a sub-frame, on which the method lookup raises
    AttributeError. On success the position of the column comes with its
    values. Lines 72 and 74 select the column again, after line 56 has
    succeeded, when the label occurs exactly once. *)
Definition getitem (df : DataFrame) (c : string) : result (nat * Series) :=
  match positions c (columns df) with
  | [] => Raise (KeyError c)
  | [i] => Ok (i, series_at i df)
  | _ => Raise AttributeError
  end.

(** [df[c] = s] for a label at position [i]: cell [i] of the n-th row becomes
    the n-th value of [s]. *)
Definition setitem (df : DataFrame) (i : nat) (s : Series) : DataFrame :=
  {| columns := columns df;
     rows := zip_with (fun (r : Row) v => <[i := v]> r) (rows df) s |}.

(** [df[mask]]: the rows whose flag is set, in their order. *)
Definition boolean_index (df : DataFrame) (mask : list bool) : DataFrame :=
  {| columns := columns df;
     rows := fst <$> filter (fun p : Row * bool => p.2 = true) (zip (rows df) mask) |}.

(** [df.empty]: some axis has length zero. *)
Definition empty (df : DataFrame) : bool :=
  match columns df, rows df with
  | [], _ | _, [] => true
  | _, _ => false
  end.

(** ** [pd.merge(left, right, on=..., how='outer')] *)

(** The position of the join key: a missing label raises KeyError, a label
    that is not unique raises ValueError. *)
Definition merge_key (df : DataFrame) (on : string) : result nat :=
  match positions on (columns df) with
  | [] => Raise (KeyError on)
  | [i] => Ok i
  | _ => Raise ValueError
  end.

(** A label both sides have receives the suffix of its side. *)
Definition renamer (to_rename : list string) (suffix : string) (x : string) : string :=
  if decide (x ∈ to_rename) then x +:+ suffix else x.

(** [Index.duplicated()]: the flag of a label is set when the label occurs
    earlier in the list. *)
Definition duplicated (l : list string) : list bool :=
  imap (fun k x => bool_decide (x ∈ take k l)) l.

(** The labels that the suffixes have made collide: repeated after renaming
    and not repeated before. *)
Definition suffix_dups (labels renamed : list string) : list string :=
  fst <$> filter (fun p : string * bool => p.2 = true)
            (zip renamed (zip_with (fun d o => d && negb o) (duplicated renamed) (duplicated labels))).

(** The order in which an outer join emits its keys. Text is compared code
    point by code point and integers by value; [transfer] joins on cleaned
    key columns, which hold text only, and the clauses for the other cells
    do no more than make the comparison total. *)
Definition cell_rank (c : Cell) : nat :=
  match c with
  | CInt _ => 0
  | CFloat _ => 1
  | CDate _ => 2
  | CStr _ => 3
  | CNull => 4
  end.

Definition cell_leb (a b : Cell) : bool :=
  match a, b with
  | CStr s, CStr t => String.leb s t
  | CInt x, CInt y => (x <=? y)%Z
  | _, _ => (cell_rank a <=? cell_rank b)%nat
  end.

Definition sort_keys (ks : list Cell) : list Cell :=
  merge_sort (fun a b => Is_true (cell_leb a b)) ks.

(** The rows of one key [k]: the pairs of a left and a right row with that
    key; a key that one side lacks keeps the rows of the other side, with
    NaN in the cells of the side that lacks it. [i] and [j] are the
    positions of the key, [wl] and [wr] the numbers of columns; the right
    side gives up its key column. *)
Definition join_key (i j wl wr : nat) (lrows rrows : list Row) (k : Cell) : list Row :=
  let ls := filter (fun r : Row => r !!! i = k) lrows in
  let rs := filter (fun r : Row => r !!! j = k) rrows in
  match ls, rs with
  | [], _ => (fun r => <[i := k]> (replicate wl CNull) ++ delete j r) <$> rs
  | _, [] => (fun l => l ++ replicate (wr - 1) CNull) <$> ls
  | _, _ => l ← ls; r ← rs; [l ++ delete j r]
  end.

Definition full_outer_join (i j wl wr : nat) (lrows rrows : list Row) : list Row :=
  let lkeys := (fun r : Row => r !!! i) <$> lrows in
  let rkeys := (fun r : Row => r !!! j) <$> rrows in
  k ← sort_keys (unique (lkeys ++ rkeys)); join_key i j wl wr lrows rrows k.

(** The merge as line 89 calls it: with a left frame that has a row (line 83
    returns before the merge otherwise) and with two key columns of cleaned
    text, which are compared cell by cell; the refusal of pandas to merge key
    columns of unlike dtypes (text against numbers) is not reproduced. The result has the columns of the
    left frame, then those of the right frame without its key; the default
    suffixes are ['_x'] and ['_y'], and a suffix that makes a label collide
    with another label of its side raises MergeError. The rows come key by
    key, the keys in sorted order. *)
Definition merge (left right : DataFrame) (on : string) : result DataFrame :=
  i ← merge_key left on;
  j ← merge_key right on;
  let lcols := columns left in
  let rcols := delete j (columns right) in
  let to_rename := filter (fun c => c ∈ rcols) lcols in
  let llabels := renamer to_rename "_x" <$> lcols in
  let rlabels := renamer to_rename "_y" <$> rcols in
  match suffix_dups lcols llabels ++ suffix_dups rcols rlabels with
  | [] => Ok {| columns := llabels ++ rlabels;
                rows := full_outer_join i j (length lcols) (length (columns right))
                          (rows left) (rows right) |}
  | _ => Raise MergeError
  end.

(** ** The route *)

(** What the route returns: one of its two messages, or the workbook that
    [send_file] delivers, here the frame written to it. *)
Inductive message : Type :=
  | ErroColunaComum   (* 'Erro: A coluna comum nao existe em um dos arquivos.' *)
  | ErroNenhumDado.   (* 'Erro: Nenhum dado correspondente encontrado no primeiro arquivo.' *)

Inductive response : Type :=
  | Text (m : message)
  | send_file (df : DataFrame).

(** Lines 56-57: [df['comum'] = df['comum'].astype(str).str.strip().str.upper()] *)
Definition normalize_key (df : DataFrame) : result DataFrame :=
  '(i, s) ← getitem df comum;
  Ok (setitem df i (str_upper (str_strip (astype_str s)))).

(** Lines 48-49 and 56-57 for one frame. *)
Definition normalize (df : DataFrame) (key : string) : result DataFrame :=
  normalize_key (rename df key comum).

(** Line 67: [df2['comum'].dropna().unique()] *)
Definition cidades_comum (df2 : DataFrame) : result Series :=
  '(_, s) ← getitem df2 comum;
  Ok (unique (dropna s)).

(** Lines 72 and 74: [df[df['comum'].isin(cidades_comum)]] *)
Definition filtrado (df : DataFrame) (cidades : Series) : result DataFrame :=
  '(_, s) ← getitem df comum;
  Ok (boolean_index df (isin s cidades)).

(** Lines 67 and 72 together. *)
Definition restrictToCommonKeys (primary secondary : DataFrame) : result DataFrame :=
  cidades ← cidades_comum secondary;
  filtrado primary cidades.

(** Line 89. *)
Definition outerJoin (left right : DataFrame) : result DataFrame :=
  merge left right comum.

(** [transfer], lines 48-105, over the join it is given. *)
Definition transfer_with (join : DataFrame -> DataFrame -> result DataFrame)
    (arquivo1 arquivo2 : DataFrame)
    (coluna_comum_arquivo1 coluna_comum_arquivo2 : string) : result response :=
  let df1 := rename arquivo1 coluna_comum_arquivo1 comum in
  let df2 := rename arquivo2 coluna_comum_arquivo2 comum in
  df1 ← normalize_key df1;
  df2 ← normalize_key df2;
  if bool_decide (comum ∉ columns df1) || bool_decide (comum ∉ columns df2)
  then Ok (Text ErroColunaComum)
  else
    cidades ← cidades_comum df2;
    df1_filtrado ← filtrado df1 cidades;
    df2_filtrado ← filtrado df2 cidades;
    if empty df1_filtrado
    then Ok (Text ErroNenhumDado)
    else
      df_resultante ← join df1_filtrado df2_filtrado;
      Ok (send_file df_resultante).

Definition transfer : DataFrame -> DataFrame -> string -> string -> result response :=
  transfer_with outerJoin.

(** ** The tables of the worked example *)

Definition Table1 : DataFrame :=
  {| columns := ["City"; "Pop"];
     rows := [[CStr "Lisbon"; CInt 500]; [CStr " porto "; CInt 200]] |}.

Definition Table2 : DataFrame :=
  {| columns := ["Town"; "Region"];
     rows := [[CStr "LISBON"; CStr "X"]; [CStr "Faro"; CStr "Y"]] |}.

(** The two tables after lines 48-57. *)
Definition Table1_clean : DataFrame :=
  {| columns := ["comum"; "Pop"];
     rows := [[CStr "LISBON"; CInt 500]; [CStr "PORTO"; CInt 200]] |}.

Definition Table2_clean : DataFrame :=
  {| columns := ["comum"; "Region"];
     rows := [[CStr "LISBON"; CStr "X"]; [CStr "FARO"; CStr "Y"]] |}.

(** The first table after line 72. *)
Definition Table1_filtrado : DataFrame :=
  {| columns := ["comum"; "Pop"];
     rows := [[CStr "LISBON"; CInt 500]] |}.

(** Tables with a column that already bears the reserved label. *)
Definition Table1_collision : DataFrame :=
  {| columns := ["comum"; "City"];
     rows := [[CStr "x"; CStr "Lisbon"]] |}.

Definition Table1_reserved : DataFrame :=
  {| columns := ["comum"; "Pop"];
     rows := [[CStr "lisbon"; CInt 500]] |}.

(** Two single-row frames whose keys differ. *)
Definition OnlyA : DataFrame := {| columns := ["comum"]; rows := [[CStr "A"]] |}.
Definition OnlyB : DataFrame := {| columns := ["comum"]; rows := [[CStr "B"]] |}.





(** Two frames that share the label ['a'] beside the key. *)
Definition Left3 : DataFrame :=
  {| columns := ["comum"; "a"; "b"];
     rows := [[CStr "K1"; CStr "u"; CNull]; [CStr "K1"; CInt 1; CInt (-2)]; [CStr "K3"; CInt 4; CInt 5]] |}.

Definition Right2 : DataFrame :=
  {| columns := ["a"; "comum"];
     rows := [[CStr "v"; CStr "K1"]; [CInt 7; CStr "K2"]] |}.

(** A first table without the requested key and without the reserved
    label, and one with the key column and no row. *)
Definition Table1_nokey : DataFrame :=
  {| columns := ["Pop"]; rows := [[CInt 500]] |}.

Definition Table1_norows : DataFrame :=
  {| columns := ["City"; "Pop"]; rows := [] |}.

(** ** Notions used to state the properties *)

(** Lines 56-57 on one cell: the text of the cell, stripped, in upper case. *)
Definition clean (c : Cell) : Cell := CStr (Py.upper (Py.strip (cell_str c))).

(** A frame whose key column ['comum'] stands at position [i] and holds
    cleaned text in every row. *)
Record normalized (df : DataFrame) (i : nat) : Prop := {
  normalized_key : positions comum (columns df) = [i];
  normalized_rows : Forall (fun r : Row => length r = length (columns df)) (rows df);
  normalized_text :
    Forall (fun r : Row => exists s, r !! i = Some (CStr s) /\ Py.trimmed s /\ Py.uppercased s)
      (rows df)
}.

(** A cell whose text [astype(str)] is reproduced for: ASCII text, an
    integer, or an empty cell. *)
Definition plain_cell (c : Cell) : bool :=
  match c with
  | CStr s => Py.isascii s
  | CInt _ | CNull => true
  | CFloat _ | CDate _ => false
  end.


(** All cells of the frame are such cells. *)
Definition plain_frame (df : DataFrame) : Prop :=
  Forall (fun r : Row => Forall (fun c => plain_cell c = true) r) (rows df).

(** The key column at position [i] holds ASCII text only. *)
Definition ascii_keys (i : nat) (df : DataFrame) : Prop :=
  Forall (fun c => exists s, c = CStr s /\ Py.isascii s = true) (series_at i df).

(** How many times a row occurs in a list of rows. *)
Definition occurrences (r : Row) (l : list Row) : nat :=
  length (filter (fun x => x = r) l).

(** ** Proof steps shared by the closed instances *)

(** Closed decidable side conditions are settled by evaluation. *)
Ltac by_evaluation := apply (bool_decide_unpack _); vm_compute; exact I.

(** A closed frame is shown to be cleaned by evaluation, row by row. *)
Ltac normalized_by_evaluation :=
  constructor;
  [ reflexivity
  | repeat constructor
  | simpl;
    repeat (constructor;
            [eexists; split; [reflexivity | vm_compute; intuition reflexivity]|]);
    constructor ].

(** A label found in two closed lists of labels is found by cases. *)
Ltac labels_by_cases :=
  let c := fresh "c" in
  let H1 := fresh "H" in
  let H2 := fresh "H" in
  intros c H1 H2; simpl in H1, H2;
  repeat match goal with
         | H : _ ∈ [] |- _ => apply elem_of_nil in H; contradiction
         | H : _ ∈ _ :: _ |- _ =>
             let E := fresh "E" in
             apply elem_of_cons in H as [E | H];
             [first [discriminate E | subst] |]
         end;
  try reflexivity.


(** ** Facts about the text functions *)

Module PyFacts.
Import Py.

Lemma lstrip_first (s : string) : blank_end (first (lstrip s)) = false.
Proof.
  induction s as [|c s IH]; simpl; [reflexivity|].
  destruct (isspace c) eqn:E; [exact IH | simpl; exact E].
Qed.

Lemma rstrip_last (s : string) : blank_end (last (rstrip s)) = false.
Proof.
  induction s as [|c s IH]; simpl; [reflexivity|].
  destruct (rstrip s) as [|d t] eqn:E.
  - destruct (isspace c) eqn:Ec; simpl; [reflexivity | exact Ec].
  - exact IH.
Qed.

Lemma rstrip_first (s : string) :
  blank_end (first s) = false -> blank_end (first (rstrip s)) = false.
Proof.
  destruct s as [|c s]; simpl; [reflexivity|].
  intros Hc. destruct (rstrip s); [rewrite Hc|]; simpl; exact Hc.
Qed.

Lemma strip_trimmed (s : string) : trimmed (strip s).
Proof.
  split; unfold strip; [apply rstrip_first, lstrip_first | apply rstrip_last].
Qed.

Lemma lstrip_id (s : string) : blank_end (first s) = false -> lstrip s = s.
Proof. destruct s as [|c s]; simpl; [reflexivity|]. intros ->. reflexivity. Qed.

Lemma rstrip_id (s : string) : blank_end (last s) = false -> rstrip s = s.
Proof.
  induction s as [|c s IH]; simpl; [reflexivity|].
  destruct s as [|d t].
  - simpl. intros ->. reflexivity.
  - intros H. rewrite (IH H). reflexivity.
Qed.

Lemma strip_id (s : string) : trimmed s -> strip s = s.
Proof.
  intros [Hf Hl]. unfold strip. rewrite (lstrip_id _ Hf). apply rstrip_id, Hl.
Qed.

Lemma upper_id (s : string) : uppercased s -> upper s = s.
Proof.
  induction s as [|c s IH]; simpl; [reflexivity|].
  intros [Hc Hs]. unfold upper_char. rewrite Hc, (IH Hs). reflexivity.
Qed.

Lemma islower_upper_char (c : ascii) : islower (upper_char c) = false.
Proof. destruct c as [[] [] [] [] [] [] [] []]; reflexivity. Qed.

Lemma isspace_upper_char (c : ascii) : isspace (upper_char c) = isspace c.
Proof. destruct c as [[] [] [] [] [] [] [] []]; reflexivity. Qed.

Lemma upper_uppercased (s : string) : uppercased (upper s).
Proof.
  induction s as [|c s IH]; simpl; [exact I|].
  split; [apply islower_upper_char | exact IH].
Qed.

Lemma last_upper (s : string) : last (upper s) = upper_char <$> last s.
Proof.
  induction s as [|c s IH]; simpl; [reflexivity|].
  destruct s as [|d t]; [reflexivity|]. exact IH.
Qed.

Lemma upper_trimmed (s : string) : trimmed s -> trimmed (upper s).
Proof.
  intros [Hf Hl]. split.
  - destruct s as [|c s]; simpl in *; [reflexivity|].
    rewrite isspace_upper_char. exact Hf.
  - rewrite last_upper. destruct (last s) as [c|]; simpl in *; [|reflexivity].
    rewrite isspace_upper_char. exact Hl.
Qed.

(** The cleaning of lines 56-57 applied to one text. *)
Lemma clean_fixed (s : string) :
  trimmed s -> uppercased s -> upper (strip s) = s.
Proof. intros Ht Hu. rewrite (strip_id _ Ht). apply upper_id, Hu. Qed.

Lemma clean_trimmed_uppercased (s : string) :
  trimmed (upper (strip s)) /\ uppercased (upper (strip s)).
Proof. split; [apply upper_trimmed, strip_trimmed | apply upper_uppercased]. Qed.

End PyFacts.

(** ** Facts about the cleaned text *)

Section CleanedText.
Import Py.

Lemma lstrip_split (s : string) : exists pre, s = pre +:+ lstrip s /\ blank pre.
Proof.
  induction s as [|c s (pre & Hs & Hpre)]; [exists EmptyString; split; [reflexivity | exact I]|].
  simpl. destruct (isspace c) eqn:Ec.
  - exists (String c pre).
    split; [change (String c s = String c (pre +:+ lstrip s)); f_equal; exact Hs|].
    split; [exact Ec | exact Hpre].
  - exists EmptyString. split; [reflexivity | exact I].
Qed.

Lemma rstrip_split (s : string) : exists post, s = rstrip s +:+ post /\ blank post.
Proof.
  induction s as [|c s (post & Hs & Hpost)]; [exists EmptyString; split; [reflexivity | exact I]|].
  simpl. destruct (rstrip s) as [|d t] eqn:Er.
  - change (s = post) in Hs. subst post. destruct (isspace c) eqn:Ec.
    + exists (String c s). split; [reflexivity | split; [exact Ec | exact Hpost]].
    + exists s. split; [reflexivity | exact Hpost].
  - exists post.
    split; [change (String c s = String c (String d t +:+ post)); f_equal; exact Hs | exact Hpost].
Qed.

Lemma strip_stripped (s : string) : stripped s (strip s).
Proof.
  destruct (lstrip_split s) as (pre & Hs & Hpre).
  destruct (rstrip_split (lstrip s)) as (post & Ht & Hpost).
  exists pre, post. unfold strip. rewrite <- Ht.
  split; [exact Hs|]. split; [exact Hpre|]. split; [exact Hpost|].
  apply PyFacts.strip_trimmed.
Qed.

Lemma upper_char_letter (c : ascii) :
  islower c = true -> nat_of_ascii (upper_char c) + 32 = nat_of_ascii c.
Proof.
  destruct c as [[] [] [] [] [] [] [] []]; intros H; first [discriminate H | reflexivity].
Qed.

Lemma upper_capitalised (t : string) : capitalised t (upper t).
Proof.
  induction t as [|c t IH]; [constructor|].
  simpl. destruct (islower c) eqn:Ec.
  - apply capitalised_letter; [exact Ec | apply upper_char_letter, Ec | exact IH].
  - unfold upper_char. rewrite Ec. apply capitalised_keep; [exact Ec | exact IH].
Qed.

Lemma isascii_upper_char (c : ascii) :
  (nat_of_ascii (upper_char c) <? 128)%nat = (nat_of_ascii c <? 128)%nat.
Proof. destruct c as [[] [] [] [] [] [] [] []]; reflexivity. Qed.

Lemma isascii_upper (s : string) : isascii (upper s) = isascii s.
Proof.
  induction s as [|c s IH]; [reflexivity|].
  simpl. rewrite isascii_upper_char, IH. reflexivity.
Qed.

Lemma isascii_lstrip (s : string) : isascii s = true -> isascii (lstrip s) = true.
Proof.
  induction s as [|c s IH]; [reflexivity|].
  simpl. intros H. destruct (isspace c); [|exact H].
  apply andb_true_iff in H as [_ H]. apply IH, H.
Qed.

Lemma isascii_rstrip (s : string) : isascii s = true -> isascii (rstrip s) = true.
Proof.
  induction s as [|c s IH]; [reflexivity|].
  simpl. intros H. apply andb_true_iff in H as [Hc H]. specialize (IH H).
  destruct (rstrip s) as [|d t].
  - destruct (isspace c); [reflexivity|]. simpl. rewrite Hc. reflexivity.
  - change (isascii (String c (String d t))) with ((nat_of_ascii c <? 128)%nat && isascii (String d t)).
    rewrite Hc, IH. reflexivity.
Qed.

Lemma isascii_uint (d : Decimal.uint) : isascii (NilEmpty.string_of_uint d) = true.
Proof. induction d; simpl; try reflexivity; exact IHd. Qed.

Lemma isascii_str_int (z : Z) : isascii (str_int z) = true.
Proof.
  unfold str_int, NilZero.string_of_int, NilZero.string_of_uint.
  destruct (Z.to_int z) as [d|d]; destruct d; try reflexivity;
    simpl; apply isascii_uint.
Qed.

End CleanedText.

Lemma plain_cell_ascii (c : Cell) :
  plain_cell c = true -> Py.isascii (cell_str c) = true.
Proof.
  destruct c as [s|z|s|s|]; simpl; intros H; try discriminate H; try reflexivity.
  - exact H.
  - apply isascii_str_int.
Qed.

(** What lines 56-57 make of one cell, said without the functions that
    compute it. *)
Lemma clean_plain (c : Cell) :
  plain_cell c = true ->
  exists t u : string,
    clean c = CStr u /\ Py.stripped (cell_str c) t /\ Py.capitalised t u /\
    Py.isascii u = true /\ Py.trimmed u /\ Py.uppercased u.
Proof.
  intros H. exists (Py.strip (cell_str c)), (Py.upper (Py.strip (cell_str c))).
  split; [reflexivity|]. split; [apply strip_stripped|]. split; [apply upper_capitalised|].
  split.
  - rewrite isascii_upper. unfold Py.strip.
    apply isascii_rstrip, isascii_lstrip, plain_cell_ascii, H.
  - apply PyFacts.clean_trimmed_uppercased.
Qed.

(** ** Facts about labels and positions *)

Section Positions.
Context (c : string) (cols : list string).

Lemma elem_of_positions (i : nat) : i ∈ positions c cols <-> cols !! i = Some c.
Proof.
  unfold positions. rewrite list_elem_of_filter, elem_of_seq. split.
  - intros [H _]. exact H.
  - intros H. split; [exact H|]. apply lookup_lt_Some in H. lia.
Qed.

Lemma NoDup_positions : NoDup (positions c cols).
Proof. apply NoDup_filter, NoDup_seq. Qed.

Lemma positions_nil : positions c cols = [] <-> c ∉ cols.
Proof.
  split.
  - intros H Hin. apply list_elem_of_lookup in Hin as [i Hi].
    apply elem_of_positions in Hi. rewrite H in Hi. by apply elem_of_nil in Hi.
  - intros H. apply elem_of_nil_inv. intros i Hi.
    apply elem_of_positions in Hi. apply H. eapply list_elem_of_lookup_2, Hi.
Qed.

Lemma positions_singleton (i : nat) :
  positions c cols = [i] <->
  cols !! i = Some c /\ forall j, cols !! j = Some c -> j = i.
Proof.
  split.
  - intros H. split.
    + apply elem_of_positions. rewrite H. apply list_elem_of_singleton. reflexivity.
    + intros j Hj. apply elem_of_positions in Hj. rewrite H in Hj.
      by apply list_elem_of_singleton in Hj.
  - intros [Hi Huniq]. apply Permutation_singleton_r.
    apply NoDup_Permutation.
    + apply NoDup_positions.
    + apply NoDup_singleton.
    + intros j. rewrite elem_of_positions, list_elem_of_singleton. split.
      * apply Huniq.
      * intros ->. exact Hi.
Qed.

Lemma positions_NoDup (i : nat) :
  NoDup cols -> cols !! i = Some c -> positions c cols = [i].
Proof.
  intros Hnd Hi. apply positions_singleton. split; [exact Hi|].
  intros j Hj. eapply NoDup_lookup; eassumption.
Qed.

Lemma positions_lt (i : nat) l : positions c cols = i :: l -> i < length cols.
Proof.
  intros H. eapply lookup_lt_Some, elem_of_positions. rewrite H. left.
Qed.

End Positions.

(** ** Facts about renaming and cleaning the key column *)


Lemma rename_absent (df : DataFrame) (old new : string) :
  old ∉ columns df -> rename df old new = df.
Proof.
  intros H. destruct df as [cols rs]. unfold rename. simpl in *. f_equal.
  induction cols as [|c cols IH]; simpl; [reflexivity|].
  apply not_elem_of_cons in H as [Hne Hnin].
  rewrite decide_False by congruence. f_equal. apply IH, Hnin.
Qed.

Lemma rename_same (df : DataFrame) (c : string) : rename df c c = df.
Proof.
  destruct df as [cols rs]. unfold rename. simpl. f_equal.
  induction cols as [|x cols IH]; simpl; [reflexivity|].
  f_equal; [destruct (decide (x = c)); congruence | exact IH].
Qed.


Lemma clean_series (s : Series) : str_upper (str_strip (astype_str s)) = clean <$> s.
Proof.
  induction s as [|c s IH]; [reflexivity|].
  unfold str_upper, str_strip, astype_str in *. simpl in *. f_equal. exact IH.
Qed.

Lemma normalize_key_eq (df : DataFrame) (i : nat) :
  positions comum (columns df) = [i] ->
  normalize_key df =
    Ok {| columns := columns df;
          rows := (fun r : Row => <[i := clean (r !!! i)]> r) <$> rows df |}.
Proof.
  intros Hpos. unfold normalize_key, getitem. rewrite Hpos. simpl.
  unfold setitem, series_at. rewrite clean_series, !zip_with_fmap_r.
  rewrite zip_with_diag. reflexivity.
Qed.

Lemma normalize_key_inv (df n : DataFrame) :
  normalize_key df = Ok n ->
  exists i, positions comum (columns df) = [i] /\
    n = {| columns := columns df;
           rows := (fun r : Row => <[i := clean (r !!! i)]> r) <$> rows df |}.
Proof.
  intros H. destruct (positions comum (columns df)) as [|i [|j l]] eqn:Hpos.
  - unfold normalize_key, getitem in H. rewrite Hpos in H. discriminate H.
  - exists i. split; [reflexivity|]. rewrite (normalize_key_eq _ _ Hpos) in H. congruence.
  - unfold normalize_key, getitem in H. rewrite Hpos in H. discriminate H.
Qed.

Lemma row_lookup_total (r : Row) (i : nat) (c : Cell) : r !! i = Some c -> r !!! i = c.
Proof. intros H. apply list_lookup_total_correct, H. Qed.

Lemma normalize_ascii_keys (df n : DataFrame) (key : string) (i : nat) :
  wf df -> normalize df key = Ok n -> positions comum (columns n) = [i] ->
  (forall r : Row, r ∈ rows df -> plain_cell (r !!! i) = true) ->
  ascii_keys i n.
Proof.
  intros [_ Hlen] H Hpos Hplain.
  apply normalize_key_inv in H as (x & Hx & ->). simpl in *.
  assert (x = i) as -> by congruence.
  pose proof (positions_lt _ _ _ _ Hpos) as Hlt. rewrite length_fmap in Hlt.
  unfold ascii_keys, series_at. simpl. rewrite <- list_fmap_compose.
  apply Forall_fmap, Forall_forall. intros r Hr. simpl.
  pose proof (proj1 (Forall_forall _ _) Hlen r Hr) as Hr'. simpl in Hr'.
  rewrite list_lookup_total_insert_eq by lia.
  destruct (clean_plain _ (Hplain r Hr)) as (t & u & Hu & _ & _ & Ha & _).
  exists u. split; [exact Hu | exact Ha].
Qed.




(** ** Facts about the key set and the filter *)

Lemma elem_of_unique (s : Series) (c : Cell) : c ∈ unique s <-> c ∈ s.
Proof. unfold unique. rewrite elem_of_reverse, elem_of_remove_dups, elem_of_reverse. reflexivity. Qed.

Lemma NoDup_unique (s : Series) : NoDup (unique s).
Proof. unfold unique. rewrite reverse_Permutation. apply NoDup_remove_dups. Qed.

Lemma dropna_text (s : Series) :
  Forall (fun c => exists t, c = CStr t) s -> dropna s = s.
Proof.
  intros H. induction H as [|c s [t ->] _ IH]; [reflexivity|].
  unfold dropna in *. rewrite filter_cons_True by reflexivity. f_equal. exact IH.
Qed.

Lemma boolean_index_isin (df : DataFrame) (i : nat) (values : Series) :
  rows (boolean_index df (isin (series_at i df) values)) =
  filter (fun r : Row => r !!! i ∈ values) (rows df).
Proof.
  unfold boolean_index, isin, series_at. simpl.
  induction (rows df) as [|r rs IH]; [reflexivity|].
  simpl. destruct (decide (r !!! i ∈ values)) as [Hin|Hnin].
  - rewrite bool_decide_true by exact Hin.
    rewrite filter_cons_True by reflexivity.
    rewrite filter_cons_True by exact Hin.
    simpl. f_equal. exact IH.
  - rewrite bool_decide_false by exact Hnin.
    rewrite filter_cons_False by (simpl; discriminate).
    rewrite filter_cons_False by exact Hnin.
    exact IH.
Qed.

Lemma getitem_key (df : DataFrame) (i : nat) :
  positions comum (columns df) = [i] -> getitem df comum = Ok (i, series_at i df).
Proof. intros H. unfold getitem. rewrite H. reflexivity. Qed.

Lemma filtrado_eq (df : DataFrame) (i : nat) (cidades : Series) :
  positions comum (columns df) = [i] ->
  filtrado df cidades =
    Ok {| columns := columns df;
          rows := filter (fun r : Row => r !!! i ∈ cidades) (rows df) |}.
Proof.
  intros H. unfold filtrado. rewrite (getitem_key _ _ H). simpl. f_equal.
  pose proof (boolean_index_isin df i cidades) as Hrows.
  destruct (boolean_index df (isin (series_at i df) cidades)) as [cols rs] eqn:E.
  simpl in Hrows. subst rs. f_equal.
  unfold boolean_index in E. congruence.
Qed.

Lemma cidades_comum_eq (df : DataFrame) (i : nat) :
  positions comum (columns df) = [i] ->
  cidades_comum df = Ok (unique (dropna (series_at i df))).
Proof. intros H. unfold cidades_comum. rewrite (getitem_key _ _ H). reflexivity. Qed.

Lemma normalized_series (df : DataFrame) (i : nat) :
  normalized df i -> Forall (fun c => exists t, c = CStr t) (series_at i df).
Proof.
  intros [_ _ Htext]. unfold series_at. apply Forall_fmap.
  eapply Forall_impl; [exact Htext|].
  intros r (s & Hs & _). exists s. simpl. apply row_lookup_total, Hs.
Qed.

Lemma occurrences_filter (P : Row -> Prop) `{!forall r, Decision (P r)} (r : Row) (l : list Row) :
  P r -> occurrences r (filter P l) = occurrences r l.
Proof.
  intros HP. unfold occurrences. f_equal.
  induction l as [|x l IH]; [reflexivity|].
  destruct (decide (P x)) as [Hx|Hx].
  - rewrite (filter_cons_True P) by exact Hx.
    destruct (decide (x = r)) as [->|Hne].
    + rewrite !filter_cons_True by reflexivity. f_equal. exact IH.
    + rewrite !filter_cons_False by exact Hne. exact IH.
  - rewrite (filter_cons_False P) by exact Hx.
    rewrite filter_cons_False by (intros ->; contradiction). exact IH.
Qed.

(** C3. For cleaned frames [A] (primary) and [B] (secondary),
    [restrictToCommonKeys A B] returns the rows of [A] whose key is a key of
    [B]: no row of the result has a key that [B] lacks, every row of [A]
    whose key is a key of [B] occurs in the result as many times as in [A],
    and the result is a subsequence of the rows of [A], so the rows kept
    stand in their original order. *)
Theorem restrictToCommonKeys_stable_filter (A B : DataFrame) (i j : nat) :
  normalized A i -> normalized B j ->
  exists res : DataFrame,
    restrictToCommonKeys A B = Ok res /\
    columns res = columns A /\
    rows res = filter (fun r : Row => r !!! i ∈ series_at j B) (rows A) /\
    Forall (fun r : Row => r !!! i ∈ series_at j B) (rows res) /\
    (forall r : Row, r !!! i ∈ series_at j B -> occurrences r (rows res) = occurrences r (rows A)) /\
    (forall r : Row, r !!! i ∉ series_at j B -> occurrences r (rows res) = 0) /\
    sublist (rows res) (rows A).
Proof.
  intros HA HB.
  pose proof (normalized_key _ _ HA) as HposA.
  pose proof (normalized_key _ _ HB) as HposB.
  assert (Hext : filter (fun r : Row => r !!! i ∈ unique (dropna (series_at j B))) (rows A)
                 = filter (fun r : Row => r !!! i ∈ series_at j B) (rows A)).
  { apply list_filter_iff. intros r.
    rewrite (dropna_text _ (normalized_series _ _ HB)). apply elem_of_unique. }
  eexists. split.
  { unfold restrictToCommonKeys. rewrite (cidades_comum_eq _ _ HposB). simpl.
    rewrite (filtrado_eq _ _ _ HposA), Hext. reflexivity. }
  simpl. split; [reflexivity|]. split; [reflexivity|]. split; [|split; [|split]].
  - apply Forall_forall. intros r Hr. apply list_elem_of_filter in Hr as [Hr _]. exact Hr.
  - intros r Hr. apply (occurrences_filter (fun r : Row => r !!! i ∈ series_at j B)), Hr.
  - intros r Hr. unfold occurrences. rewrite list_filter_filter.
    apply length_zero_iff_nil, elem_of_nil_inv. intros x Hx.
    apply list_elem_of_filter in Hx as [[-> Hx] _]. contradiction.
  - apply sublist_filter.
Qed.

Lemma restrictToCommonKeys_stable_filter_witness :
  exists res : DataFrame,
    restrictToCommonKeys Table1_clean Table2_clean = Ok res /\
    columns res = columns Table1_clean /\
    rows res = filter (fun r : Row => r !!! 0 ∈ series_at 0 Table2_clean) (rows Table1_clean) /\
    Forall (fun r : Row => r !!! 0 ∈ series_at 0 Table2_clean) (rows res) /\
    (forall r : Row, r !!! 0 ∈ series_at 0 Table2_clean ->
       occurrences r (rows res) = occurrences r (rows Table1_clean)) /\
    (forall r : Row, r !!! 0 ∉ series_at 0 Table2_clean -> occurrences r (rows res) = 0) /\
    sublist (rows res) (rows Table1_clean).
Proof.
  apply (restrictToCommonKeys_stable_filter Table1_clean Table2_clean 0 0);
    normalized_by_evaluation.
Defined.

Lemma normalize_normalized (df n : DataFrame) (key : string) :
  wf df -> normalize df key = Ok n -> exists i, normalized n i.
Proof.
  intros [_ Hlen] H. apply normalize_key_inv in H as (i & Hpos & ->).
  exists i. pose proof (positions_lt _ _ _ _ Hpos) as Hlt.
  simpl in Hpos, Hlt. rewrite length_fmap in Hlt.
  constructor; simpl.
  - exact Hpos.
  - apply Forall_fmap. eapply Forall_impl; [exact Hlen|].
    intros r Hr. simpl. rewrite length_insert, length_fmap. exact Hr.
  - apply Forall_fmap. eapply Forall_impl; [exact Hlen|].
    intros r Hr. simpl in *. eexists. split.
    + apply list_lookup_insert_eq. lia.
    + apply PyFacts.clean_trimmed_uppercased.
Qed.

Lemma normalize_key_position (df n : DataFrame) (key : string) :
  normalize df key = Ok n -> exists i, positions comum (columns n) = [i].
Proof. intros H. apply normalize_key_inv in H as (i & Hpos & ->). exists i. exact Hpos. Qed.

Lemma key_label_present (df : DataFrame) (i : nat) :
  positions comum (columns df) = [i] -> comum ∈ columns df.
Proof.
  intros H. apply positions_singleton in H as [H _]. eapply list_elem_of_lookup_2, H.
Qed.



Lemma filter_all {A : Type} (P : A -> Prop) `{!forall x, Decision (P x)} (l : list A) :
  Forall P l -> filter P l = l.
Proof.
  intros Hall. induction Hall as [|x l Hx _ IH]; [reflexivity|].
  rewrite filter_cons_True by exact Hx. f_equal. exact IH.
Qed.

Lemma filtrado_own_keys (df : DataFrame) (i : nat) :
  normalized df i -> filtrado df (unique (dropna (series_at i df))) = Ok df.
Proof.
  intros Hn. rewrite (filtrado_eq _ _ _ (normalized_key _ _ Hn)).
  rewrite (dropna_text _ (normalized_series _ _ Hn)).
  destruct df as [cols rs]. simpl. do 2 f_equal.
  apply filter_all, Forall_forall. intros r Hr.
  apply elem_of_unique. unfold series_at. simpl.
  apply (list_elem_of_fmap_2 (fun r : Row => r !!! i)), Hr.
Qed.

(** ** The route, stage by stage *)

Lemma empty_no_rows (df : DataFrame) : rows df = [] -> empty df = true.
Proof. intros H. unfold empty. rewrite H. destruct (columns df); reflexivity. Qed.

Lemma empty_rows (df : DataFrame) : columns df <> [] -> empty df = true -> rows df = [].
Proof.
  unfold empty. destruct (columns df) as [|c cols]; [contradiction|].
  destruct (rows df); [reflexivity | discriminate].
Qed.

Lemma transfer_with_raise_1 join (a1 a2 : DataFrame) (c1 c2 : string) (e : exn) :
  normalize a1 c1 = Raise e -> transfer_with join a1 a2 c1 c2 = Raise e.
Proof. unfold normalize, transfer_with. intros ->. reflexivity. Qed.

Lemma transfer_with_raise_2 join (a1 a2 n1 : DataFrame) (c1 c2 : string) (e : exn) :
  normalize a1 c1 = Ok n1 -> normalize a2 c2 = Raise e ->
  transfer_with join a1 a2 c1 c2 = Raise e.
Proof. unfold normalize, transfer_with. intros -> ->. reflexivity. Qed.

(** Once both key columns are cleaned, the route filters both frames by the
    keys of the second frame, stops on an empty first frame, and joins. *)
Lemma transfer_with_stages join (a1 a2 n1 n2 : DataFrame) (c1 c2 : string) (i1 i2 : nat) :
  normalize a1 c1 = Ok n1 -> normalize a2 c2 = Ok n2 ->
  positions comum (columns n1) = [i1] -> positions comum (columns n2) = [i2] ->
  transfer_with join a1 a2 c1 c2 =
    let cidades := unique (dropna (series_at i2 n2)) in
    let df1_filtrado :=
      {| columns := columns n1;
         rows := filter (fun r : Row => r !!! i1 ∈ cidades) (rows n1) |} in
    let df2_filtrado :=
      {| columns := columns n2;
         rows := filter (fun r : Row => r !!! i2 ∈ cidades) (rows n2) |} in
    if empty df1_filtrado then Ok (Text ErroNenhumDado)
    else df_resultante ← join df1_filtrado df2_filtrado; Ok (send_file df_resultante).
Proof.
  unfold normalize, transfer_with. intros -> -> H1 H2. simpl.
  rewrite bool_decide_false by (intros Hn; apply Hn; eapply key_label_present, H1).
  rewrite bool_decide_false by (intros Hn; apply Hn; eapply key_label_present, H2).
  simpl. rewrite (cidades_comum_eq _ _ H2). simpl.
  rewrite (filtrado_eq _ _ _ H1). simpl.
  rewrite (filtrado_eq _ _ _ H2). simpl. reflexivity.
Qed.

Lemma restrictToCommonKeys_eq (A B : DataFrame) (i j : nat) :
  positions comum (columns A) = [i] -> positions comum (columns B) = [j] ->
  restrictToCommonKeys A B =
    Ok {| columns := columns A;
          rows := filter (fun r : Row => r !!! i ∈ unique (dropna (series_at j B))) (rows A) |}.
Proof.
  intros HA HB. unfold restrictToCommonKeys. rewrite (cidades_comum_eq _ _ HB). simpl.
  apply filtrado_eq, HA.
Qed.

(** C4. Whatever the join is, [transfer] returns the message 'Nenhum dado
    correspondente' exactly when both key columns could be cleaned and the
    first frame, restricted to the keys of the second, has no row. The
    answer then does not depend on the join: it is given before the join is
    called, and it is a message, not a workbook. *)
Theorem empty_result_iff join (arquivo1 arquivo2 : DataFrame) (c1 c2 : string) :
  (transfer_with join arquivo1 arquivo2 c1 c2 = Ok (Text ErroNenhumDado) <->
   exists n1 n2 f1 : DataFrame,
     normalize arquivo1 c1 = Ok n1 /\ normalize arquivo2 c2 = Ok n2 /\
     restrictToCommonKeys n1 n2 = Ok f1 /\ rows f1 = []) /\
  (transfer_with join arquivo1 arquivo2 c1 c2 = Ok (Text ErroNenhumDado) ->
   (forall join', transfer_with join' arquivo1 arquivo2 c1 c2 = Ok (Text ErroNenhumDado)) /\
   (forall df, transfer_with join arquivo1 arquivo2 c1 c2 <> Ok (send_file df))).
Proof.
  assert (Hiff : forall jn,
    transfer_with jn arquivo1 arquivo2 c1 c2 = Ok (Text ErroNenhumDado) <->
    exists n1 n2 f1 : DataFrame,
      normalize arquivo1 c1 = Ok n1 /\ normalize arquivo2 c2 = Ok n2 /\
      restrictToCommonKeys n1 n2 = Ok f1 /\ rows f1 = []).
  { intros jn.
    destruct (normalize arquivo1 c1) as [n1|e1] eqn:H1.
    2:{ rewrite (transfer_with_raise_1 _ _ _ _ _ _ H1).
        split; [discriminate | intros (? & ? & ? & ? & _); discriminate]. }
    destruct (normalize arquivo2 c2) as [n2|e2] eqn:H2.
    2:{ rewrite (transfer_with_raise_2 _ _ _ _ _ _ _ H1 H2).
        split; [discriminate | intros (? & ? & ? & _ & ? & _); discriminate]. }
    destruct (normalize_key_position _ _ _ H1) as [i1 Hp1].
    destruct (normalize_key_position _ _ _ H2) as [i2 Hp2].
    rewrite (transfer_with_stages _ _ _ _ _ _ _ _ _ H1 H2 Hp1 Hp2).
    cbv zeta. split.
    - intros Hres. exists n1, n2. eexists. split; [reflexivity|]. split; [reflexivity|].
      split; [apply (restrictToCommonKeys_eq _ _ _ _ Hp1 Hp2)|].
      match type of Hres with (if empty ?f then _ else _) = _ =>
        destruct (empty f) eqn:E end.
      + apply empty_rows in E; [exact E|]. simpl. intros Hnil.
        pose proof (key_label_present _ _ Hp1) as Hin. rewrite Hnil in Hin.
        by apply elem_of_nil in Hin.
      + destruct (jn _ _); discriminate.
    - intros (n1' & n2' & f1 & E1 & E2 & Hr & Hrows).
      injection E1 as <-. injection E2 as <-.
      rewrite (restrictToCommonKeys_eq _ _ _ _ Hp1 Hp2) in Hr. injection Hr as <-.
      rewrite empty_no_rows by exact Hrows. reflexivity. }
  split; [apply Hiff|].
  intros H. split.
  - intros join'. apply Hiff. apply Hiff in H. exact H.
  - intros df. rewrite H. discriminate.
Qed.

(** The scenario of two tables with disjoint keys. *)
Example transfer_disjoint_keys : transfer OnlyA OnlyB comum comum = Ok (Text ErroNenhumDado).
Proof. reflexivity. Qed.

(** C9. [transfer] filters the second frame by the common keys as well, and
    this filter keeps every row: the keys it filters by are the keys of the
    second frame itself, so the frame handed to the join as right operand is
    the cleaned second frame. *)
Theorem secondary_filter_identity join (arquivo1 arquivo2 n1 n2 : DataFrame) (c1 c2 : string) :
  wf arquivo2 ->
  normalize arquivo1 c1 = Ok n1 -> normalize arquivo2 c2 = Ok n2 ->
  exists (cidades : Series) (df1_filtrado : DataFrame),
    cidades_comum n2 = Ok cidades /\
    filtrado n1 cidades = Ok df1_filtrado /\
    filtrado n2 cidades = Ok n2 /\
    transfer_with join arquivo1 arquivo2 c1 c2 =
      if empty df1_filtrado then Ok (Text ErroNenhumDado)
      else df_resultante ← join df1_filtrado n2; Ok (send_file df_resultante).
Proof.
  intros Hwf H1 H2.
  destruct (normalize_key_position _ _ _ H1) as [i1 Hp1].
  destruct (normalize_normalized _ _ _ Hwf H2) as [i2 Hn2].
  pose proof (normalized_key _ _ Hn2) as Hp2.
  pose proof (filtrado_own_keys _ _ Hn2) as Hown.
  eexists. eexists.
  split; [apply (cidades_comum_eq _ _ Hp2)|].
  split; [apply (filtrado_eq _ _ _ Hp1)|].
  split; [exact Hown|].
  rewrite (transfer_with_stages _ _ _ _ _ _ _ _ _ H1 H2 Hp1 Hp2). cbv zeta.
  rewrite (filtrado_eq _ _ _ Hp2) in Hown. injection Hown as Hown.
  rewrite Hown. destruct n2; reflexivity.
Qed.

Lemma secondary_filter_identity_witness :
  exists (cidades : Series) (df1_filtrado : DataFrame),
    cidades_comum Table2_clean = Ok cidades /\
    filtrado Table1_clean cidades = Ok df1_filtrado /\
    filtrado Table2_clean cidades = Ok Table2_clean /\
    transfer_with outerJoin Table1 Table2 "City" "Town" =
      if empty df1_filtrado then Ok (Text ErroNenhumDado)
      else df_resultante ← outerJoin df1_filtrado Table2_clean; Ok (send_file df_resultante).
Proof.
  apply (secondary_filter_identity outerJoin Table1 Table2 Table1_clean Table2_clean "City" "Town").
  - split; [by_evaluation | repeat constructor].
  - reflexivity.
  - reflexivity.
Defined.

(** ** Empty key cells *)




(** ** Facts about the outer join *)

Lemma suffixed_not_comum (c suffix : string) :
  suffix = "_x" \/ suffix = "_y" -> c +:+ suffix <> comum.
Proof.
  unfold comum.
  intros [-> | ->];
    destruct c as [|a1 [|a2 [|a3 [|a4 [|a5 [|a6 c]]]]]]; simpl; intros H;
    inversion H.
Qed.

Lemma renamer_comum (shared : list string) (suffix c : string) :
  suffix = "_x" \/ suffix = "_y" -> comum ∉ shared ->
  renamer shared suffix c = comum <-> c = comum.
Proof.
  intros Hs Hnin. unfold renamer. destruct (decide (c ∈ shared)) as [Hin|Hout].
  - split.
    + intros H. exfalso. exact (suffixed_not_comum _ _ Hs H).
    + intros ->. contradiction.
  - reflexivity.
Qed.

Lemma merge_key_inv (df : DataFrame) (on : string) (i : nat) :
  merge_key df on = Ok i -> positions on (columns df) = [i].
Proof.
  unfold merge_key. destruct (positions on (columns df)) as [|k [|k' l]]; try discriminate.
  intros H. injection H as <-. reflexivity.
Qed.

Lemma merge_inv (left right res : DataFrame) (on : string) :
  merge left right on = Ok res ->
  exists i j : nat,
    positions on (columns left) = [i] /\ positions on (columns right) = [j] /\
    let rcols := delete j (columns right) in
    let shared := filter (fun c => c ∈ rcols) (columns left) in
    columns res = (renamer shared "_x" <$> columns left) ++ (renamer shared "_y" <$> rcols) /\
    rows res = full_outer_join i j (length (columns left)) (length (columns right))
                 (rows left) (rows right).
Proof.
  unfold merge. intros H.
  destruct (merge_key left on) as [i|e] eqn:Hi; [|discriminate H].
  destruct (merge_key right on) as [j|e] eqn:Hj; [|discriminate H].
  simpl in H. exists i, j.
  split; [apply merge_key_inv, Hi|]. split; [apply merge_key_inv, Hj|].
  cbv zeta.
  destruct (suffix_dups _ _ ++ suffix_dups _ _); [|discriminate H].
  injection H as <-. simpl. split; reflexivity.
Qed.

Lemma elem_of_delete_position (cols : list string) (c : string) (j : nat) :
  positions c cols = [j] -> c ∉ delete j cols.
Proof.
  intros Hpos Hin. apply positions_singleton in Hpos as [Hj Huniq].
  apply list_elem_of_lookup in Hin as [p Hp].
  destruct (decide (p < j)) as [Hlt|Hge].
  - rewrite list_lookup_delete_lt in Hp by exact Hlt. apply Huniq in Hp. lia.
  - rewrite list_lookup_delete_ge in Hp by lia. apply Huniq in Hp. lia.
Qed.

Section JoinRows.
Context (i j wl wr : nat) (lrows rrows : list (list Cell)).

Local Abbreviation lkeys := ((fun r : Row => r !!! i) <$> lrows).
Local Abbreviation rkeys := ((fun r : Row => r !!! j) <$> rrows).

Lemma filter_key_nil (p : nat) (rs : list (list Cell)) (k : Cell) :
  filter (fun r : Row => r !!! p = k) rs = [] <-> k ∉ (fun r : Row => r !!! p) <$> rs.
Proof.
  split.
  - intros H Hin. apply list_elem_of_fmap in Hin as (r & -> & Hr).
    assert (Hf : r ∈ filter (fun r' : Row => r' !!! p = r !!! p) rs)
      by (apply list_elem_of_filter; split; [reflexivity | exact Hr]).
    rewrite H in Hf. by apply elem_of_nil in Hf.
  - intros H. apply elem_of_nil_inv. intros r Hr.
    apply list_elem_of_filter in Hr as [<- Hr]. apply H.
    apply (list_elem_of_fmap_2 (fun r : Row => r !!! p)), Hr.
Qed.

(** The three kinds of rows of a key. *)
Lemma elem_of_join_key (k : Cell) (row : list Cell) :
  row ∈ join_key i j wl wr lrows rrows k ->
  (exists l r, l ∈ lrows /\ l !!! i = k /\ r ∈ rrows /\ r !!! j = k /\ row = l ++ delete j r)
  \/ (exists l, l ∈ lrows /\ l !!! i = k /\ (k ∉ rkeys) /\ row = l ++ replicate (wr - 1) CNull)
  \/ (exists r, r ∈ rrows /\ r !!! j = k /\ (k ∉ lkeys) /\
        row = <[i := k]> (replicate wl CNull) ++ delete j r).
Proof.
  unfold join_key.
  destruct (filter (fun r : Row => r !!! i = k) lrows) as [|l0 ls] eqn:El.
  - intros H. right. right. apply list_elem_of_fmap in H as (r & -> & Hr).
    apply list_elem_of_filter in Hr as [Hk Hr].
    exists r. repeat split; try assumption. apply filter_key_nil, El.
  - destruct (filter (fun r : Row => r !!! j = k) rrows) as [|r0 rs] eqn:Er.
    + intros H. right. left. apply list_elem_of_fmap in H as (l & -> & Hl).
      rewrite <- El in Hl. apply list_elem_of_filter in Hl as [Hk Hl].
      exists l. repeat split; try assumption. apply filter_key_nil, Er.
    + intros H. left. apply list_elem_of_bind in H as (l & H & Hl).
      apply list_elem_of_bind in H as (r & H & Hr).
      apply list_elem_of_singleton in H.
      rewrite <- El in Hl. rewrite <- Er in Hr.
      apply list_elem_of_filter in Hl as [Hkl Hl].
      apply list_elem_of_filter in Hr as [Hkr Hr].
      exists l, r. repeat split; assumption.
Qed.

Lemma elem_of_full_outer_join (row : list Cell) :
  row ∈ full_outer_join i j wl wr lrows rrows <->
  exists k, (k ∈ lkeys \/ k ∈ rkeys) /\ row ∈ join_key i j wl wr lrows rrows k.
Proof.
  unfold full_outer_join, sort_keys. rewrite list_elem_of_bind.
  split; intros (k & H1 & H2); exists k.
  - split; [|exact H1].
    rewrite merge_sort_Permutation in H2. apply elem_of_unique, elem_of_app in H2. exact H2.
  - split; [exact H2|].
    rewrite merge_sort_Permutation. apply elem_of_unique, elem_of_app. exact H1.
Qed.

End JoinRows.

(** ** Counting the rows of the outer join *)

Lemma length_bind_le {A B : Type} (f : A -> list B) (l : list A) :
  (forall x, x ∈ l -> 1 <= length (f x)) -> length l <= length (l ≫= f).
Proof.
  induction l as [|x l IH]; intros H; [reflexivity|].
  rewrite bind_cons, length_app. simpl.
  pose proof (H x ltac:(left)) as Hx.
  assert (length l <= length (l ≫= f)) by (apply IH; intros y Hy; apply H; right; exact Hy).
  lia.
Qed.

Lemma length_bind_const {A B : Type} (f : A -> list B) (l : list A) (n : nat) :
  (forall x, x ∈ l -> length (f x) = n) -> length (l ≫= f) = length l * n.
Proof.
  induction l as [|x l IH]; intros H; [reflexivity|].
  rewrite bind_cons, length_app. simpl.
  rewrite (H x ltac:(left)), IH; [lia|]. intros y Hy. apply H. right. exact Hy.
Qed.

Lemma filter_key_length (p : nat) (rs : list (list Cell)) (k : Cell) :
  NoDup ((fun r : Row => r !!! p) <$> rs) ->
  length (filter (fun r : Row => r !!! p = k) rs) <= 1.
Proof.
  induction rs as [|r rs IH]; intros Hnd; [simpl; lia|].
  rewrite fmap_cons in Hnd. apply NoDup_cons in Hnd as [Hnin Hnd].
  destruct (decide (r !!! p = k)) as [Hk|Hk].
  - rewrite filter_cons_True by exact Hk.
    replace (filter (fun r0 : Row => r0 !!! p = k) rs) with (@nil (list Cell)); [simpl; lia|].
    symmetry. apply filter_key_nil. rewrite <- Hk. exact Hnin.
  - rewrite filter_cons_False by exact Hk. apply IH, Hnd.
Qed.

Section JoinCount.
Context (i j wl wr : nat) (lrows rrows : list (list Cell)).

Local Abbreviation lkeys := ((fun r : Row => r !!! i) <$> lrows).
Local Abbreviation rkeys := ((fun r : Row => r !!! j) <$> rrows).

Lemma join_key_length (k : Cell) :
  length (join_key i j wl wr lrows rrows k) =
    let nl := length (filter (fun r : Row => r !!! i = k) lrows) in
    let nr := length (filter (fun r : Row => r !!! j = k) rrows) in
    match nl, nr with
    | 0, _ => nr
    | _, 0 => nl
    | _, _ => nl * nr
    end.
Proof.
  unfold join_key. cbv zeta.
  destruct (filter (fun r : Row => r !!! i = k) lrows) as [|l0 ls].
  - rewrite length_fmap. reflexivity.
  - destruct (filter (fun r : Row => r !!! j = k) rrows) as [|r0 rs].
    + rewrite length_fmap. reflexivity.
    + rewrite (length_bind_const _ _ (length (r0 :: rs))); [reflexivity|].
      intros l _. rewrite (length_bind_const _ _ 1); [lia|]. reflexivity.
Qed.

Lemma join_key_length_ge (k : Cell) :
  k ∈ lkeys \/ k ∈ rkeys -> 1 <= length (join_key i j wl wr lrows rrows k).
Proof.
  intros Hk. rewrite join_key_length. cbv zeta.
  destruct (filter (fun r : Row => r !!! i = k) lrows) as [|l0 ls] eqn:El;
    destruct (filter (fun r : Row => r !!! j = k) rrows) as [|r0 rs] eqn:Er;
    simpl; try lia.
  apply filter_key_nil in El. apply filter_key_nil in Er. tauto.
Qed.

Lemma join_key_length_one (k : Cell) :
  NoDup lkeys -> NoDup rkeys -> k ∈ lkeys \/ k ∈ rkeys ->
  length (join_key i j wl wr lrows rrows k) = 1.
Proof.
  intros Hl Hr Hk. pose proof (join_key_length_ge k Hk) as Hge.
  rewrite join_key_length in *. cbv zeta in *.
  pose proof (filter_key_length i lrows k Hl) as H1.
  pose proof (filter_key_length j rrows k Hr) as H2.
  destruct (length (filter (fun r : Row => r !!! i = k) lrows)) as [|[|n]];
    destruct (length (filter (fun r : Row => r !!! j = k) rrows)) as [|[|m]];
    simpl in *; lia.
Qed.

Lemma full_outer_join_length :
  length (full_outer_join i j wl wr lrows rrows) =
  length (unique (lkeys ++ rkeys) ≫= join_key i j wl wr lrows rrows).
Proof.
  unfold full_outer_join, sort_keys. apply Permutation_length.
  rewrite merge_sort_Permutation. reflexivity.
Qed.

Lemma full_outer_join_length_ge :
  length (unique (lkeys ++ rkeys)) <= length (full_outer_join i j wl wr lrows rrows).
Proof.
  rewrite full_outer_join_length. apply length_bind_le.
  intros k Hk. apply join_key_length_ge.
  apply elem_of_unique, elem_of_app in Hk. exact Hk.
Qed.

Lemma full_outer_join_length_eq :
  NoDup lkeys -> NoDup rkeys ->
  length (full_outer_join i j wl wr lrows rrows) = length (unique (lkeys ++ rkeys)).
Proof.
  intros Hl Hr. rewrite full_outer_join_length.
  rewrite (length_bind_const _ _ 1); [lia|].
  intros k Hk. apply join_key_length_one; try assumption.
  apply elem_of_unique, elem_of_app in Hk. exact Hk.
Qed.

End JoinCount.

Lemma unique_length_le (s t : list Cell) :
  (forall c, c ∈ s -> c ∈ t) -> length (unique s) <= length (unique t).
Proof.
  intros H. apply submseteq_length, NoDup_submseteq; [apply NoDup_unique|].
  intros c Hc. apply elem_of_unique, H, elem_of_unique, Hc.
Qed.

Lemma unique_length_eq (s t : list Cell) :
  (forall c, c ∈ s <-> c ∈ t) -> length (unique s) = length (unique t).
Proof.
  intros H. apply Nat.le_antisymm; apply unique_length_le; intros c Hc; apply H, Hc.
Qed.

Lemma join_key_row_key (i j wl wr : nat) (lrows rrows : list (list Cell)) (k : Cell) (row : list Cell) :
  Forall (fun r : Row => length r = wl) lrows -> i < wl ->
  row ∈ join_key i j wl wr lrows rrows k -> row !!! i = k.
Proof.
  intros Hlen Hi Hrow. rewrite Forall_forall in Hlen.
  apply elem_of_join_key in Hrow
    as [(l & r & Hl & Hk & _ & _ & ->) | [(l & Hl & Hk & _ & ->) | (r & _ & _ & _ & ->)]].
  - rewrite lookup_total_app_l by (rewrite (Hlen _ Hl); exact Hi). exact Hk.
  - rewrite lookup_total_app_l by (rewrite (Hlen _ Hl); exact Hi). exact Hk.
  - rewrite lookup_total_app_l by (rewrite length_insert, length_replicate; exact Hi).
    apply list_lookup_total_insert_eq. rewrite length_replicate. exact Hi.
Qed.

(** C6. Let [L] and [R] be the two frames that reach the join: each has one
    column ['comum'], and every key of [L] is a key of [R], as after the
    filter of line 72. When their outer join returns a frame, that frame has
    at least as many rows as [L] has distinct keys and as [R] has distinct
    keys; it has exactly the larger of the two numbers of rows when no key
    occurs twice on either side; and every key of [L] or of [R] is the key
    of some row of it. *)
Theorem outerJoin_row_count (L R res : DataFrame) (i j : nat) :
  wf L ->
  positions comum (columns L) = [i] -> positions comum (columns R) = [j] ->
  (forall k, k ∈ series_at i L -> k ∈ series_at j R) ->
  outerJoin L R = Ok res ->
  Nat.max (length (unique (series_at i L))) (length (unique (series_at j R)))
    <= length (rows res) /\
  (NoDup (series_at i L) -> NoDup (series_at j R) ->
   length (rows res) =
     Nat.max (length (unique (series_at i L))) (length (unique (series_at j R)))) /\
  (forall k, k ∈ series_at i L \/ k ∈ series_at j R -> k ∈ series_at i res).
Proof.
  intros [_ Hlen] Hi Hj Hincl H. unfold outerJoin in H.
  destruct (merge_inv _ _ _ _ H) as (i' & j' & Hi' & Hj' & _ & Hrows).
  assert (i' = i) as -> by congruence. assert (j' = j) as -> by congruence.
  unfold series_at in *. rewrite Hrows.
  set (lkeys := (fun r : Row => r !!! i) <$> rows L) in *.
  set (rkeys := (fun r : Row => r !!! j) <$> rows R) in *.
  pose proof (full_outer_join_length_ge i j (length (columns L)) (length (columns R))
                (rows L) (rows R)) as Hge.
  fold lkeys rkeys in Hge.
  assert (Hl : length (unique lkeys) <= length (unique rkeys))
    by (apply unique_length_le, Hincl).
  assert (Hr : length (unique (lkeys ++ rkeys)) = length (unique rkeys)).
  { apply unique_length_eq. intros c. rewrite elem_of_app.
    split; [intros [Hc|Hc]; auto | auto]. }
  split; [lia|]. split.
  - intros Hndl Hndr.
    rewrite (full_outer_join_length_eq _ _ _ _ _ _ Hndl Hndr). fold lkeys rkeys. lia.
  - intros k Hk.
    pose proof (join_key_length_ge i j (length (columns L)) (length (columns R))
                  (rows L) (rows R) k Hk) as Hne.
    destruct (join_key i j (length (columns L)) (length (columns R)) (rows L) (rows R) k)
      as [|row rest] eqn:E; [simpl in Hne; lia|].
    assert (Hin : row ∈ join_key i j (length (columns L)) (length (columns R)) (rows L) (rows R) k)
      by (rewrite E; left).
    apply list_elem_of_fmap. exists row. split.
    + symmetry. eapply join_key_row_key; [exact Hlen | eapply positions_lt, Hi | exact Hin].
    + apply elem_of_full_outer_join. exists k. split; [exact Hk | exact Hin].
Qed.

Lemma outerJoin_row_count_witness :
  exists res : DataFrame,
    outerJoin Table1_filtrado Table2_clean = Ok res /\
    Nat.max (length (unique (series_at 0 Table1_filtrado)))
            (length (unique (series_at 0 Table2_clean))) <= length (rows res) /\
    length (rows res) =
      Nat.max (length (unique (series_at 0 Table1_filtrado)))
              (length (unique (series_at 0 Table2_clean))) /\
    (forall k, k ∈ series_at 0 Table1_filtrado \/ k ∈ series_at 0 Table2_clean ->
       k ∈ series_at 0 res).
Proof.
  eexists.
  destruct (outerJoin_row_count Table1_filtrado Table2_clean _ 0 0
              ltac:(split; [by_evaluation | repeat constructor]) eq_refl eq_refl
              ltac:(intros k Hk; change (k ∈ [CStr "LISBON"]) in Hk;
                    apply list_elem_of_singleton in Hk; subst k; by_evaluation)
              eq_refl)
    as (Hge & Heq & Hkeys).
  split; [reflexivity|]. split; [exact Hge|]. split; [|exact Hkeys].
  apply Heq; by_evaluation.
Defined.

(** ** The columns and the NaN cells of the outer join *)

Lemma elem_of_delete_NoDup (cols : list string) (c x : string) (j : nat) :
  NoDup cols -> cols !! j = Some x ->
  c ∈ delete j cols <-> c ∈ cols /\ c <> x.
Proof.
  intros Hnd Hj. split.
  - intros Hin. split; [eapply list_elem_of_delete_inv, Hin|].
    intros ->. exact (elem_of_delete_position _ _ _ (positions_NoDup _ _ _ Hnd Hj) Hin).
  - intros [Hin Hne]. apply list_elem_of_lookup in Hin as [p Hp].
    apply list_elem_of_lookup.
    destruct (lt_eq_lt_dec p j) as [[Hlt | ->] | Hgt].
    + exists p. rewrite list_lookup_delete_lt by exact Hlt. exact Hp.
    + congruence.
    + exists (p - 1). rewrite list_lookup_delete_ge by lia.
      replace (S (p - 1)) with p by lia. exact Hp.
Qed.

Lemma join_key_row_length (i j wl wr : nat) (lrows rrows : list (list Cell)) (k : Cell) (row : list Cell) :
  Forall (fun r : Row => length r = wl) lrows ->
  Forall (fun r : Row => length r = wr) rrows ->
  i < wl -> j < wr ->
  row ∈ join_key i j wl wr lrows rrows k -> length row = wl + (wr - 1).
Proof.
  intros Hl Hr Hi Hj Hrow. rewrite Forall_forall in Hl, Hr.
  assert (Hdel : forall r, r ∈ rrows -> length (delete j r) = wr - 1).
  { intros r Hin. rewrite length_delete, (Hr _ Hin); [reflexivity|].
    apply lookup_lt_is_Some. rewrite (Hr _ Hin). exact Hj. }
  apply elem_of_join_key in Hrow
    as [(l & r & Hlin & _ & Hrin & _ & ->) | [(l & Hlin & _ & _ & ->) | (r & Hrin & _ & _ & ->)]];
    rewrite length_app.
  - rewrite (Hl _ Hlin), (Hdel _ Hrin). reflexivity.
  - rewrite (Hl _ Hlin), length_replicate. reflexivity.
  - rewrite length_insert, length_replicate, (Hdel _ Hrin). reflexivity.
Qed.

(** C5. Let the outer join of [L] and [R] on ['comum'], [L] with at least one
    row as at line 89, return a frame. Its columns are the columns of [L]
    followed by the columns of [R] other than the key, where a label that
    both sides have beside the key carries the suffix ['_x'] for the copy of
    [L] and ['_y'] for the copy of [R]; the label ['comum'] occurs once, at
    its position in [L]; every row has a cell for every column; a row whose
    key no row of [R] has holds NaN in all cells that come from [R], and a
    row whose key no row of [L] has holds NaN in all cells that come from
    [L] except the key. *)
Theorem outerJoin_result_shape (L R res : DataFrame) :
  wf L -> wf R -> rows L <> [] -> outerJoin L R = Ok res ->
  exists (i j : nat) (shared : list string),
    positions comum (columns L) = [i] /\ positions comum (columns R) = [j] /\
    (forall c, c ∈ shared <-> c ∈ columns L /\ c ∈ columns R /\ c <> comum) /\
    columns res =
      (renamer shared "_x" <$> columns L) ++ (renamer shared "_y" <$> delete j (columns R)) /\
    (forall c, c ∈ shared -> renamer shared "_x" c = c +:+ "_x" /\ renamer shared "_y" c = c +:+ "_y") /\
    (forall c suffix, c ∉ shared -> renamer shared suffix c = c) /\
    positions comum (columns res) = [i] /\
    Forall (fun row : Row => length row = length (columns res)) (rows res) /\
    (forall row : Row, row ∈ rows res -> row !!! i ∉ series_at j R ->
       drop (length (columns L)) row = replicate (length (columns R) - 1) CNull) /\
    (forall row : Row, row ∈ rows res -> row !!! i ∉ series_at i L ->
       forall p, p < length (columns L) -> p <> i -> row !! p = Some CNull).
Proof.
  intros [HndL HlenL] [HndR HlenR] _ H. unfold outerJoin in H.
  destruct (merge_inv _ _ _ _ H) as (i & j & Hi & Hj & Hcols & Hrows).
  cbv zeta in Hcols.
  set (shared := filter (fun c => c ∈ delete j (columns R)) (columns L)) in *.
  pose proof (positions_lt _ _ _ _ Hi) as Hilt.
  pose proof (positions_lt _ _ _ _ Hj) as Hjlt.
  pose proof (proj1 (positions_singleton _ _ _) Hi) as [HiL HuniqL].
  pose proof (proj1 (positions_singleton _ _ _) Hj) as [HjR HuniqR].
  assert (Hshared : forall c, c ∈ shared <-> c ∈ columns L /\ c ∈ columns R /\ c <> comum).
  { intros c. unfold shared. rewrite list_elem_of_filter.
    rewrite (elem_of_delete_NoDup _ _ _ _ HndR HjR). tauto. }
  assert (Hfree : comum ∉ shared) by (intros Hc; apply Hshared in Hc; tauto).
  assert (HlenD : length (delete j (columns R)) = length (columns R) - 1).
  { apply length_delete. apply lookup_lt_is_Some, Hjlt. }
  exists i, j, shared.
  split; [exact Hi|]. split; [exact Hj|]. split; [exact Hshared|]. split; [exact Hcols|].
  split.
  { intros c Hc. unfold renamer. rewrite !decide_True by exact Hc. split; reflexivity. }
  split.
  { intros c suffix Hc. unfold renamer. rewrite decide_False by exact Hc. reflexivity. }
  split.
  { rewrite Hcols. apply positions_singleton. split.
    - rewrite lookup_app_l by (rewrite length_fmap; exact Hilt).
      rewrite list_lookup_fmap, HiL. simpl. f_equal.
      apply renamer_comum; [left; reflexivity | exact Hfree | reflexivity].
    - intros p Hp. apply lookup_app_Some in Hp as [Hp | [_ Hp]].
      + rewrite list_lookup_fmap in Hp.
        destruct (columns L !! p) as [c|] eqn:Hc; [|discriminate Hp].
        simpl in Hp. injection Hp as Hp.
        apply renamer_comum in Hp; [|left; reflexivity | exact Hfree].
        subst c. apply HuniqL, Hc.
      + exfalso. rewrite list_lookup_fmap in Hp.
        destruct (delete j (columns R) !! (p - length (renamer shared "_x" <$> columns L)))
          as [c|] eqn:Hc; [|discriminate Hp].
        simpl in Hp. injection Hp as Hp.
        apply renamer_comum in Hp; [|right; reflexivity | exact Hfree].
        subst c. apply (elem_of_delete_position _ _ _ Hj).
        eapply list_elem_of_lookup_2, Hc. }
  split.
  { apply Forall_forall. intros row Hrow. rewrite Hrows in Hrow.
    apply elem_of_full_outer_join in Hrow as (k & _ & Hrow).
    rewrite (join_key_row_length _ _ _ _ _ _ _ _ HlenL HlenR Hilt Hjlt Hrow).
    rewrite Hcols, length_app, !length_fmap, HlenD. reflexivity. }
  rewrite Forall_forall in HlenL.
  split.
  - intros row Hrow Hkey. rewrite Hrows in Hrow.
    apply elem_of_full_outer_join in Hrow as (k & _ & Hrow).
    pose proof (join_key_row_key _ _ _ _ _ _ _ _ (proj2 (Forall_forall _ _) HlenL) Hilt Hrow) as Hk.
    apply elem_of_join_key in Hrow
      as [(l & r & _ & _ & Hr & Hkr & ->) | [(l & Hl & _ & _ & ->) | (r & Hr & Hkr & _ & ->)]].
    + exfalso. apply Hkey. rewrite Hk, <- Hkr.
      apply (list_elem_of_fmap_2 (fun r : Row => r !!! j)), Hr.
    + rewrite <- (HlenL _ Hl). apply drop_app_length.
    + exfalso. apply Hkey. rewrite Hk, <- Hkr.
      apply (list_elem_of_fmap_2 (fun r : Row => r !!! j)), Hr.
  - intros row Hrow Hkey p Hp Hne. rewrite Hrows in Hrow.
    apply elem_of_full_outer_join in Hrow as (k & _ & Hrow).
    pose proof (join_key_row_key _ _ _ _ _ _ _ _ (proj2 (Forall_forall _ _) HlenL) Hilt Hrow) as Hk.
    apply elem_of_join_key in Hrow
      as [(l & r & Hl & Hkl & _ & _ & ->) | [(l & Hl & Hkl & _ & ->) | (r & _ & _ & _ & ->)]].
    + exfalso. apply Hkey. rewrite Hk, <- Hkl.
      apply (list_elem_of_fmap_2 (fun r : Row => r !!! i)), Hl.
    + exfalso. apply Hkey. rewrite Hk, <- Hkl.
      apply (list_elem_of_fmap_2 (fun r : Row => r !!! i)), Hl.
    + rewrite lookup_app_l by (rewrite length_insert, length_replicate; exact Hp).
      rewrite list_lookup_insert_ne by congruence.
      apply lookup_replicate_2, Hp.
Qed.

Lemma outerJoin_result_shape_witness :
  exists (res : DataFrame) (i j : nat) (shared : list string),
    outerJoin Left3 Right2 = Ok res /\
    positions comum (columns Left3) = [i] /\ positions comum (columns Right2) = [j] /\
    (forall c, c ∈ shared <-> c ∈ columns Left3 /\ c ∈ columns Right2 /\ c <> comum) /\
    columns res =
      (renamer shared "_x" <$> columns Left3) ++ (renamer shared "_y" <$> delete j (columns Right2)) /\
    (forall c, c ∈ shared -> renamer shared "_x" c = c +:+ "_x" /\ renamer shared "_y" c = c +:+ "_y") /\
    (forall c suffix, c ∉ shared -> renamer shared suffix c = c) /\
    positions comum (columns res) = [i] /\
    Forall (fun row : Row => length row = length (columns res)) (rows res) /\
    (forall row : Row, row ∈ rows res -> row !!! i ∉ series_at j Right2 ->
       drop (length (columns Left3)) row = replicate (length (columns Right2) - 1) CNull) /\
    (forall row : Row, row ∈ rows res -> row !!! i ∉ series_at i Left3 ->
       forall p, p < length (columns Left3) -> p <> i -> row !! p = Some CNull).
Proof.
  eexists.
  destruct (outerJoin_result_shape Left3 Right2 _
              ltac:(split; [by_evaluation | repeat constructor])
              ltac:(split; [by_evaluation | repeat constructor])
              ltac:(discriminate) eq_refl)
    as (i & j & shared & H).
  exists i, j, shared. split; [reflexivity | exact H].
Defined.

Example outerJoin_Left3_Right2 :
  outerJoin Left3 Right2 =
    Ok {| columns := ["comum"; "a_x"; "b"; "a_y"];
          rows := [[CStr "K1"; CStr "u"; CNull; CStr "v"];
                   [CStr "K1"; CInt 1; CInt (-2); CStr "v"];
                   [CStr "K2"; CNull; CNull; CInt 7];
                   [CStr "K3"; CInt 4; CInt 5; CNull]] |}.
Proof. reflexivity. Qed.

(** ** The worked example and the missing-column check *)

(** C7 (as stated) fails: the common keys are all the keys of [Table2], the
    second table keeps both rows, and the workbook is not the single joined
    row. *)
Lemma transfer_example_not_single_row :
  normalize Table2 "Town" = Ok Table2_clean /\
  cidades_comum Table2_clean = Ok [CStr "LISBON"; CStr "FARO"] /\
  filtrado Table2_clean [CStr "LISBON"; CStr "FARO"] = Ok Table2_clean /\
  transfer Table1 Table2 "City" "Town" <>
    Ok (send_file {| columns := ["comum"; "Pop"; "Region"];
                     rows := [[CStr "LISBON"; CInt 500; CStr "X"]] |}).
Proof.
  split; [reflexivity|]. split; [reflexivity|]. split; [reflexivity|].
  intros H. vm_compute in H. discriminate H.
Qed.

(** C7 (as amended). On [Table1] with key ['City'] and [Table2] with key
    ['Town'] the keys become LISBON, PORTO and LISBON, FARO; the common keys
    are LISBON and FARO, the distinct keys of [Table2]; [Table1] is reduced
    to its LISBON row and [Table2] keeps both rows; the workbook has the
    columns comum, Pop, Region and two rows: LISBON with 500 and X, and
    FARO with NaN and Y. *)
Theorem transfer_example :
  normalize Table1 "City" = Ok Table1_clean /\
  normalize Table2 "Town" = Ok Table2_clean /\
  cidades_comum Table2_clean = Ok [CStr "LISBON"; CStr "FARO"] /\
  filtrado Table1_clean [CStr "LISBON"; CStr "FARO"] =
    Ok {| columns := ["comum"; "Pop"]; rows := [[CStr "LISBON"; CInt 500]] |} /\
  filtrado Table2_clean [CStr "LISBON"; CStr "FARO"] = Ok Table2_clean /\
  exists res : DataFrame,
    transfer Table1 Table2 "City" "Town" = Ok (send_file res) /\
    columns res = ["comum"; "Pop"; "Region"] /\
    rows res ≡ₚ [[CStr "LISBON"; CInt 500; CStr "X"]; [CStr "FARO"; CNull; CStr "Y"]].
Proof.
  repeat (split; [reflexivity|]).
  eexists. split; [reflexivity|]. split; [reflexivity|].
  simpl. apply perm_swap.
Qed.

Lemma normalize_absent_key (df : DataFrame) (key : string) :
  key ∉ columns df -> normalize df key = normalize_key df.
Proof. intros H. unfold normalize. rewrite (rename_absent _ _ _ H). reflexivity. Qed.

(** A key that the frame lacks is not reported when the frame has a column
    ['comum']: the renaming does nothing and that column is taken as key. *)
Lemma normalize_absent_key_reserved (df : DataFrame) (key : string) (i : nat) :
  key ∉ columns df -> positions comum (columns df) = [i] ->
  normalize df key = normalize df comum.
Proof.
  intros H _. rewrite (normalize_absent_key _ _ H).
  unfold normalize. rewrite rename_same. reflexivity.
Qed.

(** Without a column ['comum'] the absent key surfaces as the KeyError of
    line 56. *)
Lemma transfer_absent_key_raises join (df1 df2 : DataFrame) (c1 c2 : string) :
  c1 ∉ columns df1 -> comum ∉ columns df1 ->
  transfer_with join df1 df2 c1 c2 = Raise (KeyError comum).
Proof.
  intros Hkey Hcomum. apply transfer_with_raise_1.
  rewrite (normalize_absent_key _ _ Hkey). unfold normalize_key, getitem.
  rewrite (proj2 (positions_nil _ _) Hcomum). reflexivity.
Qed.

(** The message of line 63 is never returned: line 56 has raised whenever
    the test of line 61 would hold. *)
Lemma missing_column_message_unreachable join (df1 df2 : DataFrame) (c1 c2 : string) :
  transfer_with join df1 df2 c1 c2 <> Ok (Text ErroColunaComum).
Proof.
  destruct (normalize df1 c1) as [n1|e1] eqn:H1.
  2:{ rewrite (transfer_with_raise_1 _ _ _ _ _ _ H1). discriminate. }
  destruct (normalize df2 c2) as [n2|e2] eqn:H2.
  2:{ rewrite (transfer_with_raise_2 _ _ _ _ _ _ _ H1 H2). discriminate. }
  destruct (normalize_key_position _ _ _ H1) as [i1 Hp1].
  destruct (normalize_key_position _ _ _ H2) as [i2 Hp2].
  rewrite (transfer_with_stages _ _ _ _ _ _ _ _ _ H1 H2 Hp1 Hp2). cbv zeta.
  destruct (empty _); [discriminate|]. destruct (join _ _); discriminate.
Qed.

(** C2, the code at a first table that lacks the requested key ['City'] and
    has a column ['comum']: no error is reported, the column ['comum'] is
    used as key and a workbook is returned. *)
Theorem transfer_absent_key_not_reported :
  ("City" ∉ columns Table1_reserved) /\
  transfer Table1_reserved Table2 "City" "Town" =
    Ok (send_file {| columns := ["comum"; "Pop"; "Region"];
                     rows := [[CStr "FARO"; CNull; CStr "Y"];
                              [CStr "LISBON"; CInt 500; CStr "X"]] |}).
Proof. split; [by_evaluation | reflexivity]. Qed.


(** ** Further properties of the route *)

(** X1. Whatever the two frames, the key names and the join, the route never
    answers with the message of line 63: the test of line 61 can only hold
    when line 56 or 57 has already raised. *)
Theorem column_check_never_answers join (arquivo1 arquivo2 : DataFrame) (c1 c2 : string) :
  transfer_with join arquivo1 arquivo2 c1 c2 <> Ok (Text ErroColunaComum).
Proof. apply missing_column_message_unreachable. Qed.

(** X2. A key name that its frame lacks, in a frame that has no column
    ['comum'] either, ends the route with the KeyError of lines 56-57: for
    the first frame whatever the second is, for the second frame once the
    first has been cleaned. *)
Theorem absent_key_raises_KeyError join (arquivo1 arquivo2 : DataFrame) (c1 c2 : string) :
  ((c1 ∉ columns arquivo1) /\ (comum ∉ columns arquivo1)) \/
  ((exists n1, normalize arquivo1 c1 = Ok n1) /\
   (c2 ∉ columns arquivo2) /\ (comum ∉ columns arquivo2)) ->
  transfer_with join arquivo1 arquivo2 c1 c2 = Raise (KeyError comum).
Proof.
  intros [[Hkey Hcomum] | [[n1 H1] [Hkey Hcomum]]].
  - apply transfer_absent_key_raises; assumption.
  - apply (transfer_with_raise_2 _ _ _ _ _ _ _ H1).
    rewrite (normalize_absent_key _ _ Hkey). unfold normalize_key, getitem.
    rewrite (proj2 (positions_nil _ _) Hcomum). reflexivity.
Qed.

Lemma absent_key_raises_KeyError_witness :
  transfer_with outerJoin Table1_nokey Table2 "City" "Town" = Raise (KeyError comum).
Proof.
  apply (absent_key_raises_KeyError outerJoin Table1_nokey Table2 "City" "Town").
  left. split; by_evaluation.
Defined.

Lemma positions_two (cols : list string) (c : string) (p q : nat) :
  p <> q -> cols !! p = Some c -> cols !! q = Some c ->
  exists x y l, positions c cols = x :: y :: l.
Proof.
  intros Hne Hp Hq.
  apply elem_of_positions in Hp. apply elem_of_positions in Hq.
  destruct (positions c cols) as [|x [|y l]] eqn:E.
  - by apply elem_of_nil in Hp.
  - apply list_elem_of_singleton in Hp. apply list_elem_of_singleton in Hq. congruence.
  - eauto.
Qed.

(** X3. When the frame has the requested key column and, beside it, a column
    that is already called ['comum'], the cleaning raises AttributeError, and
    so does the route when this happens in the first frame. *)
Theorem reserved_label_collision_raises join (arquivo1 arquivo2 : DataFrame) (c1 c2 : string) :
  c1 ∈ columns arquivo1 -> comum ∈ columns arquivo1 -> c1 <> comum ->
  normalize arquivo1 c1 = Raise AttributeError /\
  transfer_with join arquivo1 arquivo2 c1 c2 = Raise AttributeError.
Proof.
  intros Hkey Hcomum Hne.
  assert (H : normalize arquivo1 c1 = Raise AttributeError).
  { apply list_elem_of_lookup in Hkey as [p Hp].
    apply list_elem_of_lookup in Hcomum as [q Hq].
    assert (Hpq : p <> q) by (intros ->; congruence).
    destruct (positions_two (columns (rename arquivo1 c1 comum)) comum p q Hpq)
      as (x & y & l & Hpos).
    - simpl. rewrite list_lookup_fmap, Hp. simpl. rewrite decide_True; reflexivity.
    - simpl. rewrite list_lookup_fmap, Hq. simpl.
      rewrite decide_False; [reflexivity | congruence].
    - unfold normalize, normalize_key, getitem. rewrite Hpos. reflexivity. }
  split; [exact H | apply transfer_with_raise_1, H].
Qed.

Lemma reserved_label_collision_raises_witness :
  normalize Table1_collision "City" = Raise AttributeError /\
  transfer_with outerJoin Table1_collision Table2 "City" "Town" = Raise AttributeError.
Proof.
  apply (reserved_label_collision_raises outerJoin Table1_collision Table2 "City" "Town").
  - by_evaluation.
  - by_evaluation.
  - discriminate.
Defined.

(** X4. A key name that its frame lacks is not told apart from the name
    ['comum']: the route does exactly what it does when ['comum'] is
    requested for that frame. *)
Theorem absent_key_acts_as_reserved_label join (arquivo1 arquivo2 : DataFrame) (c1 c2 : string) :
  transfer_with join arquivo1 arquivo2 c1 c2 =
  transfer_with join arquivo1 arquivo2
    (if decide (c1 ∈ columns arquivo1) then c1 else comum)
    (if decide (c2 ∈ columns arquivo2) then c2 else comum).
Proof.
  unfold transfer_with.
  destruct (decide (c1 ∈ columns arquivo1)) as [H1|H1];
    destruct (decide (c2 ∈ columns arquivo2)) as [H2|H2];
    rewrite ?(rename_absent _ _ _ H1), ?(rename_absent _ _ _ H2), ?rename_same;
    reflexivity.
Qed.

Lemma normalize_key_fixed (df : DataFrame) (i : nat) :
  normalized df i -> normalize_key df = Ok df.
Proof.
  intros [Hpos _ Htext]. rewrite (normalize_key_eq _ _ Hpos).
  destruct df as [cols rs]. simpl in *. do 2 f_equal.
  rewrite <- (list_fmap_id rs) at 2.
  apply Forall_fmap_ext_1. eapply Forall_impl; [exact Htext|].
  intros r (s & Hs & Ht & Hu). simpl.
  apply list_insert_id. rewrite Hs, (row_lookup_total _ _ _ Hs).
  unfold clean. simpl. rewrite (PyFacts.clean_fixed _ Ht Hu). reflexivity.
Qed.

Lemma normalize_plain_keys (df n : DataFrame) (key : string) (i : nat) :
  wf df -> plain_frame df -> normalize df key = Ok n ->
  positions comum (columns n) = [i] -> ascii_keys i n.
Proof.
  intros Hwf Hplain H Hpos.
  apply (normalize_ascii_keys df n key i Hwf H Hpos).
  intros r Hr. destruct Hwf as [_ Hlen].
  pose proof (positions_lt _ _ _ _ Hpos) as Hlt.
  apply normalize_key_inv in H as (x & _ & ->). simpl in Hlt. rewrite length_fmap in Hlt.
  pose proof (proj1 (Forall_forall _ _) Hlen r Hr) as Hr'. simpl in Hr'.
  destruct (lookup_lt_is_Some_2 r i ltac:(lia)) as [c Hc].
  rewrite (row_lookup_total _ _ _ Hc).
  apply (proj1 (Forall_forall _ _) (proj1 (Forall_forall _ _) Hplain r Hr)).
  eapply list_elem_of_lookup_2, Hc.
Qed.

(** X5. Cleaning twice is cleaning once: for a frame whose cells hold ASCII
    text, integers or nothing, whenever [normalize] returns a frame its key
    column holds ASCII text, and [normalize] with the key ['comum'] returns
    that frame again. *)
Theorem normalize_twice (df n : DataFrame) (key : string) :
  wf df -> plain_frame df -> normalize df key = Ok n ->
  normalize n comum = Ok n /\
  exists i : nat, positions comum (columns n) = [i] /\ ascii_keys i n.
Proof.
  intros Hwf Hplain H. destruct (normalize_normalized _ _ _ Hwf H) as [i Hn].
  split.
  - unfold normalize. rewrite rename_same. apply (normalize_key_fixed _ _ Hn).
  - exists i. split; [apply (normalized_key _ _ Hn)|].
    apply (normalize_plain_keys df n key i Hwf Hplain H (normalized_key _ _ Hn)).
Qed.

Lemma normalize_twice_witness :
  normalize Table1_clean comum = Ok Table1_clean /\
  exists i : nat, positions comum (columns Table1_clean) = [i] /\ ascii_keys i Table1_clean.
Proof.
  apply (normalize_twice Table1 Table1_clean "City").
  - split; [by_evaluation | repeat constructor].
  - repeat constructor.
  - reflexivity.
Defined.

Lemma renamed_lookup (cols : list string) (key : string) (q : nat) (x : string) :
  ((fun c => if decide (c = key) then comum else c) <$> cols) !! q = Some x ->
  exists c, cols !! q = Some c /\ (x = comum \/ (x = c /\ c <> key)).
Proof.
  rewrite list_lookup_fmap. destruct (cols !! q) as [c|]; [|discriminate].
  simpl. intros H. injection H as <-. exists c. split; [reflexivity|].
  destruct (decide (c = key)); [left | right]; auto.
Qed.

Lemma normalize_shape (df n : DataFrame) (key : string) :
  wf df -> normalize df key = Ok n ->
  wf n /\
  length (columns n) = length (columns df) /\
  length (rows n) = length (rows df) /\
  exists i : nat,
    positions comum (columns n) = [i] /\
    (forall q, q <> i -> columns n !! q = columns df !! q) /\
    (forall (p : nat) (r : Row), rows df !! p = Some r ->
       exists r' : Row, rows n !! p = Some r' /\ forall q, q <> i -> r' !! q = r !! q).
Proof.
  intros [Hnd Hlen] H. apply normalize_key_inv in H as (i & Hpos & ->). simpl in *.
  pose proof (proj1 (positions_singleton _ _ _) Hpos) as [_ Huniq].
  assert (Hother : forall q, q <> i ->
            ((fun c => if decide (c = key) then comum else c) <$> columns df) !! q
            = columns df !! q).
  { intros q Hq. destruct (((fun c => if decide (c = key) then comum else c) <$> columns df) !! q)
      as [x|] eqn:E.
    - destruct (renamed_lookup _ _ _ _ E) as (c & Hc & [-> | [-> _]]).
      + exfalso. apply Hq, Huniq, E.
      + symmetry. exact Hc.
    - rewrite list_lookup_fmap in E. destruct (columns df !! q); [discriminate E | reflexivity]. }
  split; [split|].
  - apply NoDup_alt. intros a b x Ha Hb.
    destruct (decide (x = comum)) as [->|Hx].
    + rewrite (Huniq _ Ha), (Huniq _ Hb). reflexivity.
    + destruct (renamed_lookup _ _ _ _ Ha) as (ca & Hca & [-> | [-> _]]); [contradiction|].
      destruct (renamed_lookup _ _ _ _ Hb) as (cb & Hcb & [Heq | [-> _]]); [contradiction|].
      eapply NoDup_lookup; eassumption.
  - apply Forall_fmap. eapply Forall_impl; [exact Hlen|].
    intros r Hr. simpl. rewrite length_insert, length_fmap. exact Hr.
  - split; [apply length_fmap|]. split; [apply length_fmap|].
    exists i. split; [exact Hpos|]. split; [exact Hother|].
    intros p r Hp. eexists. split.
    + rewrite list_lookup_fmap, Hp. reflexivity.
    + intros q Hq. apply list_lookup_insert_ne. congruence.
Qed.

(** X6. The cleaning keeps the shape of a frame: the labels stay distinct,
    the numbers of columns and of rows stay the same, every row keeps one
    cell per column, and outside the key column no label and no cell
    changes. *)
Theorem normalize_keeps_shape (df n : DataFrame) (key : string) :
  wf df -> normalize df key = Ok n ->
  wf n /\
  length (columns n) = length (columns df) /\
  length (rows n) = length (rows df) /\
  exists i : nat,
    positions comum (columns n) = [i] /\
    (forall q, q <> i -> columns n !! q = columns df !! q) /\
    (forall (p : nat) (r : Row), rows df !! p = Some r ->
       exists r' : Row, rows n !! p = Some r' /\ forall q, q <> i -> r' !! q = r !! q).
Proof. apply normalize_shape. Qed.

Lemma normalize_keeps_shape_witness :
  wf Table1_clean /\
  length (columns Table1_clean) = length (columns Table1) /\
  length (rows Table1_clean) = length (rows Table1) /\
  exists i : nat,
    positions comum (columns Table1_clean) = [i] /\
    (forall q, q <> i -> columns Table1_clean !! q = columns Table1 !! q) /\
    (forall (p : nat) (r : Row), rows Table1 !! p = Some r ->
       exists r' : Row, rows Table1_clean !! p = Some r' /\ forall q, q <> i -> r' !! q = r !! q).
Proof.
  apply (normalize_keeps_shape Table1 Table1_clean "City").
  - split; [by_evaluation | repeat constructor].
  - reflexivity.
Defined.

(** What a workbook tells about the run that produced it. *)
Lemma transfer_send_file_inv (arquivo1 arquivo2 res : DataFrame) (c1 c2 : string) :
  wf arquivo1 -> wf arquivo2 ->
  transfer arquivo1 arquivo2 c1 c2 = Ok (send_file res) ->
  exists (n1 n2 : DataFrame) (i j : nat),
    normalize arquivo1 c1 = Ok n1 /\ normalize arquivo2 c2 = Ok n2 /\
    normalized n1 i /\ normalized n2 j /\
    filter (fun r : Row => r !!! i ∈ series_at j n2) (rows n1) <> [] /\
    rows res =
      full_outer_join i j (length (columns n1)) (length (columns n2))
        (filter (fun r : Row => r !!! i ∈ series_at j n2) (rows n1)) (rows n2) /\
    columns res !! i = Some comum.
Proof.
  intros Hwf1 Hwf2 H. unfold transfer in H.
  destruct (normalize arquivo1 c1) as [n1|e1] eqn:H1.
  2:{ rewrite (transfer_with_raise_1 _ _ _ _ _ _ H1) in H. discriminate H. }
  destruct (normalize arquivo2 c2) as [n2|e2] eqn:H2.
  2:{ rewrite (transfer_with_raise_2 _ _ _ _ _ _ _ H1 H2) in H. discriminate H. }
  destruct (normalize_normalized _ _ _ Hwf1 H1) as [i Hn1].
  destruct (normalize_normalized _ _ _ Hwf2 H2) as [j Hn2].
  pose proof (normalized_key _ _ Hn1) as Hp1.
  pose proof (normalized_key _ _ Hn2) as Hp2.
  rewrite (transfer_with_stages _ _ _ _ _ _ _ _ _ H1 H2 Hp1 Hp2) in H. cbv zeta in H.
  pose proof (filtrado_own_keys _ _ Hn2) as Hown.
  rewrite (filtrado_eq _ _ _ Hp2) in Hown. injection Hown as Hown. rewrite Hown in H.
  assert (Hext : filter (fun r : Row => r !!! i ∈ unique (dropna (series_at j n2))) (rows n1)
                 = filter (fun r : Row => r !!! i ∈ series_at j n2) (rows n1)).
  { apply list_filter_iff. intros r.
    rewrite (dropna_text _ (normalized_series _ _ Hn2)). apply elem_of_unique. }
  rewrite Hext in H.
  exists n1, n2, i, j. split; [reflexivity|]. split; [reflexivity|].
  split; [exact Hn1|]. split; [exact Hn2|].
  match type of H with (if empty ?f then _ else _) = _ => destruct (empty f) eqn:E end;
    [discriminate H|].
  split.
  { intros Hnil. rewrite empty_no_rows in E by exact Hnil. discriminate E. }
  destruct (outerJoin _ _) as [df|e] eqn:Hjoin; [|discriminate H].
  simpl in H. injection H as ->.
  replace {| columns := columns n2; rows := rows n2 |} with n2 in Hjoin by (destruct n2; reflexivity).
  unfold outerJoin in Hjoin.
  destruct (merge_inv _ _ _ _ Hjoin) as (i' & j' & Hi' & Hj' & Hcols & Hrows).
  simpl in Hi', Hcols, Hrows.
  assert (i' = i) as -> by congruence. assert (j' = j) as -> by congruence.
  split; [exact Hrows|].
  rewrite Hcols. rewrite lookup_app_l by (rewrite length_fmap; eapply positions_lt, Hp1).
  rewrite list_lookup_fmap.
  rewrite (proj1 (proj1 (positions_singleton _ _ _) Hp1)). simpl. f_equal.
  apply renamer_comum; [left; reflexivity | | reflexivity].
  intros Hin. apply list_elem_of_filter in Hin as [Hin _].
  exact (elem_of_delete_position _ _ _ Hp2 Hin).
Qed.

Lemma filtered_rows_length (df : DataFrame) (i : nat) (P : list Cell -> Prop)
    `{!forall r, Decision (P r)} :
  normalized df i ->
  Forall (fun r : Row => length r = length (columns df)) (filter P (rows df)).
Proof.
  intros Hn. apply Forall_forall. intros r Hr.
  apply list_elem_of_filter in Hr as [_ Hr].
  exact (proj1 (Forall_forall _ _) (normalized_rows _ _ Hn) r Hr).
Qed.

(** X7. A workbook that the route sends is never empty, its column at the
    key position of the first frame is ['comum'], and the keys found in that
    column are exactly the cleaned keys of the second frame: every key of
    the second file is in the workbook, and no key that the second file
    lacks is. *)
Theorem workbook_keys (arquivo1 arquivo2 res : DataFrame) (c1 c2 : string) :
  wf arquivo1 -> wf arquivo2 ->
  transfer arquivo1 arquivo2 c1 c2 = Ok (send_file res) ->
  exists (n1 n2 : DataFrame) (i j : nat),
    normalize arquivo1 c1 = Ok n1 /\ normalize arquivo2 c2 = Ok n2 /\
    positions comum (columns n1) = [i] /\ positions comum (columns n2) = [j] /\
    columns res !! i = Some comum /\
    rows res <> [] /\
    forall k : Cell, k ∈ series_at i res <-> k ∈ series_at j n2.
Proof.
  intros Hwf1 Hwf2 H.
  destruct (transfer_send_file_inv _ _ _ _ _ Hwf1 Hwf2 H)
    as (n1 & n2 & i & j & H1 & H2 & Hn1 & Hn2 & Hne & Hrows & Hlabel).
  exists n1, n2, i, j.
  split; [exact H1|]. split; [exact H2|].
  split; [apply (normalized_key _ _ Hn1)|]. split; [apply (normalized_key _ _ Hn2)|].
  split; [exact Hlabel|].
  pose proof (positions_lt _ _ _ _ (normalized_key _ _ Hn1)) as Hilt.
  pose proof (filtered_rows_length n1 i (fun r : Row => r !!! i ∈ series_at j n2) Hn1) as Hlen.
  set (f1 := filter (fun r : Row => r !!! i ∈ series_at j n2) (rows n1)) in *.
  assert (Hkeys : forall k, k ∈ series_at i res <-> k ∈ series_at j n2).
  { intros k. unfold series_at at 1. rewrite Hrows. split.
    - intros Hk. apply list_elem_of_fmap in Hk as (row & -> & Hrow).
      apply elem_of_full_outer_join in Hrow as (k & Hk & Hrow).
      rewrite (join_key_row_key _ _ _ _ _ _ _ _ Hlen Hilt Hrow).
      destruct Hk as [Hk|Hk]; [|exact Hk].
      apply list_elem_of_fmap in Hk as (l & -> & Hl).
      apply list_elem_of_filter in Hl as [Hl _]. exact Hl.
    - intros Hk.
      assert (Hk' : k ∈ (fun r : Row => r !!! i) <$> f1 \/ k ∈ (fun r : Row => r !!! j) <$> rows n2)
        by (right; exact Hk).
      pose proof (join_key_length_ge i j (length (columns n1)) (length (columns n2))
                    f1 (rows n2) k Hk') as Hge.
      destruct (join_key i j (length (columns n1)) (length (columns n2)) f1 (rows n2) k)
        as [|row rest] eqn:E; [simpl in Hge; lia|].
      assert (Hin : row ∈ join_key i j (length (columns n1)) (length (columns n2)) f1 (rows n2) k)
        by (rewrite E; left).
      apply list_elem_of_fmap. exists row. split.
      + symmetry. exact (join_key_row_key _ _ _ _ _ _ _ _ Hlen Hilt Hin).
      + apply elem_of_full_outer_join. exists k. split; [exact Hk' | exact Hin]. }
  split; [|exact Hkeys].
  intros Hnil. destruct f1 as [|l f1'] eqn:Ef; [contradiction|].
  assert (Hl : l ∈ filter (fun r : Row => r !!! i ∈ series_at j n2) (rows n1))
    by (fold f1; rewrite Ef; left).
  apply list_elem_of_filter in Hl as [Hl _].
  apply Hkeys in Hl. unfold series_at in Hl. rewrite Hnil in Hl.
  by apply elem_of_nil in Hl.
Qed.

Lemma workbook_keys_witness :
  exists (res n1 n2 : DataFrame) (i j : nat),
    transfer Table1 Table2 "City" "Town" = Ok (send_file res) /\
    normalize Table1 "City" = Ok n1 /\ normalize Table2 "Town" = Ok n2 /\
    positions comum (columns n1) = [i] /\ positions comum (columns n2) = [j] /\
    columns res !! i = Some comum /\
    rows res <> [] /\
    forall k : Cell, k ∈ series_at i res <-> k ∈ series_at j n2.
Proof.
  eexists.
  destruct (workbook_keys Table1 Table2 _ "City" "Town"
              ltac:(split; [by_evaluation | repeat constructor])
              ltac:(split; [by_evaluation | repeat constructor]) eq_refl)
    as (n1 & n2 & i & j & H).
  exists n1, n2, i, j. split; [reflexivity | exact H].
Defined.

Lemma join_key_matched (i j wl wr : nat) (lrows rrows : list (list Cell)) (k : Cell) (l r : list Cell) :
  l ∈ lrows -> l !!! i = k -> r ∈ rrows -> r !!! j = k ->
  l ++ delete j r ∈ join_key i j wl wr lrows rrows k.
Proof.
  intros Hl Hkl Hr Hkr. unfold join_key.
  assert (Hfl : l ∈ filter (fun x : Row => x !!! i = k) lrows)
    by (apply list_elem_of_filter; split; assumption).
  assert (Hfr : r ∈ filter (fun x : Row => x !!! j = k) rrows)
    by (apply list_elem_of_filter; split; assumption).
  destruct (filter (fun x : Row => x !!! i = k) lrows) as [|l0 ls];
    [by apply elem_of_nil in Hfl|].
  destruct (filter (fun x : Row => x !!! j = k) rrows) as [|r0 rs];
    [by apply elem_of_nil in Hfr|].
  apply list_elem_of_bind. exists l. split; [|exact Hfl].
  apply list_elem_of_bind. exists r. split; [|exact Hfr].
  apply list_elem_of_singleton. reflexivity.
Qed.

Lemma join_key_right_only (i j wl wr : nat) (lrows rrows : list (list Cell)) (k : Cell) (r : list Cell) :
  r ∈ rrows -> r !!! j = k -> k ∉ (fun x : Row => x !!! i) <$> lrows ->
  <[i := k]> (replicate wl CNull) ++ delete j r ∈ join_key i j wl wr lrows rrows k.
Proof.
  intros Hr Hkr Hk. unfold join_key.
  rewrite (proj2 (filter_key_nil i lrows k) Hk).
  apply (list_elem_of_fmap_2 (fun x : Row => <[i := k]> (replicate wl CNull) ++ delete j x)).
  apply list_elem_of_filter. split; assumption.
Qed.

(** X8. The rows of a workbook are exactly these: for every row of the
    cleaned first frame and every row of the cleaned second frame with the
    same key, the first row followed by the second without its key cell;
    and for every row of the second frame whose key the first frame lacks,
    that row behind NaN cells and its key. A row of the first frame whose
    key the second frame lacks is never in the workbook, although the join
    is an outer join. *)
Theorem workbook_rows (arquivo1 arquivo2 res : DataFrame) (c1 c2 : string) :
  wf arquivo1 -> wf arquivo2 ->
  transfer arquivo1 arquivo2 c1 c2 = Ok (send_file res) ->
  exists (n1 n2 : DataFrame) (i j : nat),
    normalize arquivo1 c1 = Ok n1 /\ normalize arquivo2 c2 = Ok n2 /\
    positions comum (columns n1) = [i] /\ positions comum (columns n2) = [j] /\
    forall row : Row,
      row ∈ rows res <->
      (exists l r : Row,
         l ∈ rows n1 /\ r ∈ rows n2 /\ l !!! i = r !!! j /\ row = l ++ delete j r) \/
      (exists r : Row,
         r ∈ rows n2 /\ (r !!! j ∉ series_at i n1) /\
         row = <[i := r !!! j]> (replicate (length (columns n1)) CNull) ++ delete j r).
Proof.
  intros Hwf1 Hwf2 H.
  destruct (transfer_send_file_inv _ _ _ _ _ Hwf1 Hwf2 H)
    as (n1 & n2 & i & j & H1 & H2 & Hn1 & Hn2 & _ & Hrows & _).
  exists n1, n2, i, j.
  split; [exact H1|]. split; [exact H2|].
  split; [apply (normalized_key _ _ Hn1)|]. split; [apply (normalized_key _ _ Hn2)|].
  intros row. rewrite Hrows, elem_of_full_outer_join. split.
  - intros (k & _ & Hrow).
    apply elem_of_join_key in Hrow
      as [(l & r & Hl & Hkl & Hr & Hkr & ->) | [(l & Hl & Hkl & Hk & ->) | (r & Hr & Hkr & Hk & ->)]].
    + left. exists l, r. apply list_elem_of_filter in Hl as [_ Hl].
      repeat split; try assumption. congruence.
    + exfalso. apply Hk. apply list_elem_of_filter in Hl as [Hl _]. rewrite <- Hkl. exact Hl.
    + right. exists r. rewrite Hkr. repeat split; try assumption.
      intros Hin. apply Hk. apply list_elem_of_fmap in Hin as (l & Hkl & Hl).
      apply list_elem_of_fmap. exists l. split; [exact Hkl|].
      apply list_elem_of_filter. split; [|exact Hl].
      rewrite <- Hkl, <- Hkr. apply (list_elem_of_fmap_2 (fun x : Row => x !!! j)), Hr.
  - intros [(l & r & Hl & Hr & Hk & ->) | (r & Hr & Hk & ->)].
    + exists (r !!! j). split.
      * right. apply (list_elem_of_fmap_2 (fun x : Row => x !!! j)), Hr.
      * apply join_key_matched; try assumption; [|reflexivity].
        apply list_elem_of_filter. split; [|exact Hl].
        rewrite Hk. apply (list_elem_of_fmap_2 (fun x : Row => x !!! j)), Hr.
    + exists (r !!! j). split.
      * right. apply (list_elem_of_fmap_2 (fun x : Row => x !!! j)), Hr.
      * apply join_key_right_only; [exact Hr | reflexivity |].
        intros Hin. apply Hk. apply list_elem_of_fmap in Hin as (l & Hkl & Hl).
        apply list_elem_of_filter in Hl as [_ Hl].
        rewrite Hkl. apply (list_elem_of_fmap_2 (fun x : Row => x !!! i)), Hl.
Qed.

Lemma workbook_rows_witness :
  exists (res n1 n2 : DataFrame) (i j : nat),
    transfer Table1 Table2 "City" "Town" = Ok (send_file res) /\
    normalize Table1 "City" = Ok n1 /\ normalize Table2 "Town" = Ok n2 /\
    positions comum (columns n1) = [i] /\ positions comum (columns n2) = [j] /\
    forall row : Row,
      row ∈ rows res <->
      (exists l r : Row,
         l ∈ rows n1 /\ r ∈ rows n2 /\ l !!! i = r !!! j /\ row = l ++ delete j r) \/
      (exists r : Row,
         r ∈ rows n2 /\ (r !!! j ∉ series_at i n1) /\
         row = <[i := r !!! j]> (replicate (length (columns n1)) CNull) ++ delete j r).
Proof.
  eexists.
  destruct (workbook_rows Table1 Table2 _ "City" "Town"
              ltac:(split; [by_evaluation | repeat constructor])
              ltac:(split; [by_evaluation | repeat constructor]) eq_refl)
    as (n1 & n2 & i & j & H).
  exists n1, n2, i, j. split; [reflexivity | exact H].
Defined.

Lemma NoDup_fmap_filter {A B : Type} (f : A -> B) (P : A -> Prop) `{!forall x, Decision (P x)}
    (l : list A) :
  NoDup (f <$> l) -> NoDup (f <$> filter P l).
Proof.
  induction l as [|x l IH]; intros Hnd; [constructor|].
  rewrite fmap_cons in Hnd. apply NoDup_cons in Hnd as [Hx Hnd].
  destruct (decide (P x)) as [HP|HP].
  - rewrite filter_cons_True by exact HP. rewrite fmap_cons. apply NoDup_cons. split.
    + intros Hin. apply Hx. apply list_elem_of_fmap in Hin as (y & -> & Hy).
      apply list_elem_of_filter in Hy as [_ Hy].
      apply (list_elem_of_fmap_2 f), Hy.
    + apply IH, Hnd.
  - rewrite filter_cons_False by exact HP. apply IH, Hnd.
Qed.

(** X9. When no cleaned key occurs twice in the first frame nor in the
    second, a workbook has exactly one row for each row of the second
    file. *)
Theorem workbook_row_count (arquivo1 arquivo2 res n1 n2 : DataFrame) (c1 c2 : string) (i j : nat) :
  wf arquivo1 -> wf arquivo2 ->
  normalize arquivo1 c1 = Ok n1 -> normalize arquivo2 c2 = Ok n2 ->
  positions comum (columns n1) = [i] -> positions comum (columns n2) = [j] ->
  NoDup (series_at i n1) -> NoDup (series_at j n2) ->
  transfer arquivo1 arquivo2 c1 c2 = Ok (send_file res) ->
  length (rows res) = length (rows arquivo2).
Proof.
  intros Hwf1 Hwf2 H1 H2 Hp1 Hp2 Hnd1 Hnd2 H.
  destruct (transfer_send_file_inv _ _ _ _ _ Hwf1 Hwf2 H)
    as (n1' & n2' & i' & j' & H1' & H2' & Hn1 & Hn2 & _ & Hrows & _).
  assert (n1' = n1) as -> by congruence. assert (n2' = n2) as -> by congruence.
  assert (i' = i) as -> by (pose proof (normalized_key _ _ Hn1); congruence).
  assert (j' = j) as -> by (pose proof (normalized_key _ _ Hn2); congruence).
  rewrite Hrows. rewrite full_outer_join_length_eq.
  - set (f1 := filter (fun r : Row => r !!! i ∈ series_at j n2) (rows n1)).
    rewrite (unique_length_eq _ (series_at j n2)).
    + rewrite (Permutation_length (NoDup_Permutation _ _ (NoDup_unique _) Hnd2
                 (fun c => elem_of_unique _ c))).
      unfold series_at. rewrite length_fmap.
      apply normalize_key_inv in H2 as (x & _ & ->). simpl. apply length_fmap.
    + intros c. rewrite elem_of_app. split; [|intros Hc; right; exact Hc].
      intros [Hc|Hc]; [|exact Hc].
      apply list_elem_of_fmap in Hc as (l & -> & Hl).
      apply list_elem_of_filter in Hl as [Hl _]. exact Hl.
  - apply NoDup_fmap_filter, Hnd1.
  - exact Hnd2.
Qed.

Lemma workbook_row_count_witness :
  exists res : DataFrame,
    transfer Table1 Table2 "City" "Town" = Ok (send_file res) /\
    length (rows res) = length (rows Table2).
Proof.
  eexists. split; [reflexivity|].
  apply (workbook_row_count Table1 Table2 _ Table1_clean Table2_clean "City" "Town" 0 0).
  - split; [by_evaluation | repeat constructor].
  - split; [by_evaluation | repeat constructor].
  - reflexivity.
  - reflexivity.
  - reflexivity.
  - reflexivity.
  - by_evaluation.
  - by_evaluation.
  - reflexivity.
Defined.

(** X10. Once both key columns are cleaned, the route answers 'Nenhum dado
    correspondente' exactly when no cleaned key of the first frame is a
    cleaned key of the second, whatever the join is. *)
Theorem no_match_iff_disjoint_keys join (arquivo1 arquivo2 n1 n2 : DataFrame)
    (c1 c2 : string) (i j : nat) :
  wf arquivo2 ->
  normalize arquivo1 c1 = Ok n1 -> normalize arquivo2 c2 = Ok n2 ->
  positions comum (columns n1) = [i] -> positions comum (columns n2) = [j] ->
  transfer_with join arquivo1 arquivo2 c1 c2 = Ok (Text ErroNenhumDado) <->
  forall k : Cell, k ∈ series_at i n1 -> k ∉ series_at j n2.
Proof.
  intros Hwf2 H1 H2 Hp1 Hp2.
  destruct (normalize_normalized _ _ _ Hwf2 H2) as [j' Hn2].
  assert (j' = j) as -> by (pose proof (normalized_key _ _ Hn2); congruence).
  rewrite (transfer_with_stages _ _ _ _ _ _ _ _ _ H1 H2 Hp1 Hp2). cbv zeta.
  rewrite (dropna_text _ (normalized_series _ _ Hn2)).
  split.
  - intros H k Hk Hk2.
    match type of H with (if empty ?f then _ else _) = _ => destruct (empty f) eqn:E end.
    + apply empty_rows in E.
      * simpl in E. apply list_elem_of_fmap in Hk as (r & -> & Hr).
        assert (Hin : r ∈ filter (fun r : Row => r !!! i ∈ unique (series_at j n2)) (rows n1))
          by (apply list_elem_of_filter; split; [apply elem_of_unique, Hk2 | exact Hr]).
        rewrite E in Hin. by apply elem_of_nil in Hin.
      * simpl. intros Hnil. pose proof (key_label_present _ _ Hp1) as Hin.
        rewrite Hnil in Hin. by apply elem_of_nil in Hin.
    + destruct (join _ _); discriminate H.
  - intros Hdisj. rewrite empty_no_rows; [reflexivity|]. simpl.
    apply elem_of_nil_inv. intros r Hr. apply list_elem_of_filter in Hr as [Hk Hr].
    rewrite elem_of_unique in Hk. apply (Hdisj (r !!! i)); [|exact Hk].
    apply (list_elem_of_fmap_2 (fun x : Row => x !!! i)), Hr.
Qed.

Lemma no_match_iff_disjoint_keys_witness :
  transfer_with outerJoin OnlyA OnlyB comum comum = Ok (Text ErroNenhumDado) <->
  forall k : Cell, k ∈ series_at 0 OnlyA -> k ∉ series_at 0 OnlyB.
Proof.
  apply (no_match_iff_disjoint_keys outerJoin OnlyA OnlyB OnlyA OnlyB comum comum 0 0).
  - split; [by_evaluation | repeat constructor].
  - reflexivity.
  - reflexivity.
  - reflexivity.
  - reflexivity.
Defined.

(** X11. A file without data rows, be it the first or the second, makes the
    route answer 'Nenhum dado correspondente' as soon as both key columns
    are found. *)
Theorem empty_file_no_match join (arquivo1 arquivo2 n1 n2 : DataFrame) (c1 c2 : string) :
  normalize arquivo1 c1 = Ok n1 -> normalize arquivo2 c2 = Ok n2 ->
  rows arquivo1 = [] \/ rows arquivo2 = [] ->
  transfer_with join arquivo1 arquivo2 c1 c2 = Ok (Text ErroNenhumDado).
Proof.
  intros H1 H2 Hempty.
  destruct (normalize_key_position _ _ _ H1) as [i Hp1].
  destruct (normalize_key_position _ _ _ H2) as [j Hp2].
  rewrite (transfer_with_stages _ _ _ _ _ _ _ _ _ H1 H2 Hp1 Hp2). cbv zeta.
  rewrite empty_no_rows; [reflexivity|]. simpl.
  apply normalize_key_inv in H1 as (x1 & _ & ->).
  apply normalize_key_inv in H2 as (x2 & _ & ->).
  unfold series_at. simpl. destruct Hempty as [-> | ->]; [reflexivity|].
  simpl. apply elem_of_nil_inv. intros r Hr.
  apply list_elem_of_filter in Hr as [Hk _]. by apply elem_of_nil in Hk.
Qed.

Lemma empty_file_no_match_witness :
  transfer_with outerJoin Table1_norows Table2 "City" "Town" = Ok (Text ErroNenhumDado).
Proof.
  apply (empty_file_no_match outerJoin Table1_norows Table2
           {| columns := ["comum"; "Pop"]; rows := [] |} Table2_clean "City" "Town").
  - reflexivity.
  - reflexivity.
  - left. reflexivity.
Defined.

Lemma renamer_nil (suffix : string) (l : list string) : renamer [] suffix <$> l = l.
Proof.
  induction l as [|x l IH]; [reflexivity|].
  rewrite fmap_cons, IH. unfold renamer.
  rewrite decide_False by apply not_elem_of_nil. reflexivity.
Qed.

Lemma suffix_dups_same (l : list string) : suffix_dups l l = [].
Proof.
  unfold suffix_dups. rewrite zip_with_diag.
  replace (filter (fun p : string * bool => p.2 = true)
             (zip l ((fun d : bool => d && negb d) <$> duplicated l)))
    with (@nil (string * bool)); [reflexivity|].
  symmetry. apply elem_of_nil_inv. intros [x b] Hp.
  apply list_elem_of_filter in Hp as [Hb Hp]. simpl in Hb. subst b.
  apply elem_of_zip_r in Hp. apply list_elem_of_fmap in Hp as (d & Hd & _).
  destruct d; discriminate Hd.
Qed.

(** Frames that share no label beside the key are joined without renaming. *)
Lemma merge_disjoint_labels (L R : DataFrame) (i j : nat) :
  NoDup (columns L) -> NoDup (columns R) ->
  positions comum (columns L) = [i] -> positions comum (columns R) = [j] ->
  (forall c, c ∈ columns L -> c ∈ columns R -> c = comum) ->
  outerJoin L R =
    Ok {| columns := columns L ++ delete j (columns R);
          rows := full_outer_join i j (length (columns L)) (length (columns R))
                    (rows L) (rows R) |} /\
  NoDup (columns L ++ delete j (columns R)).
Proof.
  intros HndL HndR Hi Hj Hdisj.
  pose proof (proj1 (proj1 (positions_singleton _ _ _) Hj)) as HjR.
  assert (Hnone : filter (fun c => c ∈ delete j (columns R)) (columns L) = []).
  { apply elem_of_nil_inv. intros c Hc. apply list_elem_of_filter in Hc as [Hc HcL].
    apply (elem_of_delete_NoDup _ _ _ _ HndR HjR) in Hc as [HcR Hne].
    apply Hne, Hdisj; assumption. }
  split.
  - unfold outerJoin, merge, merge_key. rewrite Hi, Hj. simpl.
    rewrite Hnone, !renamer_nil, !suffix_dups_same. reflexivity.
  - apply NoDup_app. split; [exact HndL|]. split.
    + intros c HcL Hc.
      apply (elem_of_delete_NoDup _ _ _ _ HndR HjR) in Hc as [HcR Hne].
      apply Hne, Hdisj; assumption.
    + eapply sublist_NoDup; [exact HndR | apply sublist_delete].
Qed.

(** X12. When two cleaned frames with distinct labels (each with one column
    ['comum'], which holds cleaned text) share no other label, their outer
    join returns a frame, no label is renamed, and the labels of the result
    are distinct: those of the left frame followed by those of the right
    frame without its key. *)
Theorem outerJoin_disjoint_labels (L R : DataFrame) (i j : nat) :
  NoDup (columns L) -> NoDup (columns R) ->
  normalized L i -> normalized R j ->
  (forall c, c ∈ columns L -> c ∈ columns R -> c = comum) ->
  exists res : DataFrame,
    outerJoin L R = Ok res /\
    columns res = columns L ++ delete j (columns R) /\
    NoDup (columns res).
Proof.
  intros HndL HndR HL HR Hdisj.
  destruct (merge_disjoint_labels L R i j HndL HndR
              (normalized_key _ _ HL) (normalized_key _ _ HR) Hdisj) as [Hjoin Hnd].
  eexists. split; [exact Hjoin|]. split; [reflexivity | exact Hnd].
Qed.

Lemma outerJoin_disjoint_labels_witness :
  exists res : DataFrame,
    outerJoin Table1_clean Table2_clean = Ok res /\
    columns res = columns Table1_clean ++ delete 0 (columns Table2_clean) /\
    NoDup (columns res).
Proof.
  apply (outerJoin_disjoint_labels Table1_clean Table2_clean 0 0).
  - by_evaluation.
  - by_evaluation.
  - normalized_by_evaluation.
  - normalized_by_evaluation.
  - labels_by_cases.
Defined.



Lemma lstrip_upper (s : string) : Py.lstrip (Py.upper s) = Py.upper (Py.lstrip s).
Proof.
  induction s as [|c s IH]; [reflexivity|].
  simpl. rewrite PyFacts.isspace_upper_char.
  destruct (Py.isspace c); [exact IH | reflexivity].
Qed.

Lemma rstrip_upper (s : string) : Py.rstrip (Py.upper s) = Py.upper (Py.rstrip s).
Proof.
  induction s as [|c s IH]; [reflexivity|].
  simpl. rewrite IH, PyFacts.isspace_upper_char.
  destruct (Py.rstrip s) as [|d t]; simpl; [|reflexivity].
  destruct (Py.isspace c); reflexivity.
Qed.

Lemma strip_upper (t : string) : Py.upper (Py.strip t) = Py.strip (Py.upper t).
Proof. unfold Py.strip. rewrite lstrip_upper, rstrip_upper. reflexivity. Qed.

(** X14. The two cleaning steps of lines 56-57 can be swapped: stripping and
    then upper-casing a column of text gives the same column as
    upper-casing and then stripping it. *)
Theorem strip_upper_commute (s : Series) :
  str_upper (str_strip (astype_str s)) = str_strip (str_upper (astype_str s)).
Proof.
  unfold str_upper, str_strip, astype_str.
  induction s as [|c s IH]; [reflexivity|].
  simpl in *. f_equal; [|exact IH].
  f_equal. apply strip_upper.
Qed.

(** X16. Let the cells of both frames hold ASCII text, integers or nothing.
    In the frame that the route hands to the spreadsheet writer
    ([df_resultante], line 98) every cell of the column ['comum'] is text,
    possibly empty, stripped and in upper case; none is NaN. *)
Theorem workbook_keys_clean (arquivo1 arquivo2 res : DataFrame) (c1 c2 : string) :
  wf arquivo1 -> wf arquivo2 -> plain_frame arquivo1 -> plain_frame arquivo2 ->
  transfer arquivo1 arquivo2 c1 c2 = Ok (send_file res) ->
  exists i : nat,
    columns res !! i = Some comum /\
    Forall (fun k : Cell =>
              exists s, k = CStr s /\ Py.isascii s = true /\ Py.trimmed s /\ Py.uppercased s)
      (series_at i res).
Proof.
  intros Hwf1 Hwf2 Hplain1 Hplain2 H.
  destruct (transfer_send_file_inv _ _ _ _ _ Hwf1 Hwf2 H)
    as (n1 & n2 & i & j & H1 & H2 & Hn1 & Hn2 & _ & Hrows & Hlabel).
  exists i. split; [exact Hlabel|].
  pose proof (positions_lt _ _ _ _ (normalized_key _ _ Hn1)) as Hilt.
  pose proof (filtered_rows_length n1 i (fun r : Row => r !!! i ∈ series_at j n2) Hn1) as Hlen.
  pose proof (normalize_plain_keys _ _ _ _ Hwf1 Hplain1 H1 (normalized_key _ _ Hn1)) as Ha1.
  pose proof (normalize_plain_keys _ _ _ _ Hwf2 Hplain2 H2 (normalized_key _ _ Hn2)) as Ha2.
  assert (Hclean : forall (df : DataFrame) (p : nat) (r : Row),
            normalized df p -> ascii_keys p df -> r ∈ rows df ->
            exists s, r !!! p = CStr s /\ Py.isascii s = true /\
                      Py.trimmed s /\ Py.uppercased s).
  { intros df p r Hn Ha Hr.
    destruct (proj1 (Forall_forall _ _) (normalized_text _ _ Hn) r Hr) as (s & Hs & Ht).
    apply row_lookup_total in Hs.
    assert (Hk : r !!! p ∈ series_at p df)
      by (apply (list_elem_of_fmap_2 (fun x : Row => x !!! p)), Hr).
    destruct (proj1 (Forall_forall _ _) Ha _ Hk) as (s' & Hs' & Hascii).
    exists s. split; [exact Hs|]. split; [|exact Ht].
    assert (s' = s) as <- by congruence. exact Hascii. }
  unfold series_at. rewrite Hrows. apply Forall_fmap, Forall_forall. intros row Hrow. simpl.
  apply elem_of_full_outer_join in Hrow as (k & Hk & Hrow).
  rewrite (join_key_row_key _ _ _ _ _ _ _ _ Hlen Hilt Hrow).
  destruct Hk as [Hk|Hk]; apply list_elem_of_fmap in Hk as (r & -> & Hr).
  - apply list_elem_of_filter in Hr as [_ Hr]. exact (Hclean _ _ _ Hn1 Ha1 Hr).
  - exact (Hclean _ _ _ Hn2 Ha2 Hr).
Qed.

Lemma workbook_keys_clean_witness :
  exists (res : DataFrame) (i : nat),
    transfer Table1 Table2 "City" "Town" = Ok (send_file res) /\
    columns res !! i = Some comum /\
    Forall (fun k : Cell =>
              exists s, k = CStr s /\ Py.isascii s = true /\ Py.trimmed s /\ Py.uppercased s)
      (series_at i res).
Proof.
  eexists.
  destruct (workbook_keys_clean Table1 Table2 _ "City" "Town"
              ltac:(split; [by_evaluation | repeat constructor])
              ltac:(split; [by_evaluation | repeat constructor])
              ltac:(repeat constructor) ltac:(repeat constructor) eq_refl)
    as (i & H).
  exists i. split; [reflexivity | exact H].
Defined.
